(** * Techshell: a shallow embedding of [techshell.c]

    The interpreter is one C file: [displayPrompt], [getInput],
    [parseInput], [executeCommand] and [main].  This development embeds
    them as Rocq functions over an explicit process state and proves the
    properties its specification states about parsing, the [cd] built-in
    and the read-parse-execute loop.

    Conventions of the embedding.
    - A C string is a [string]: the bytes before the terminating NUL.
      The line [fgets] delivers is the C string of the bytes it read,
      [cstring]: it stops at the first NUL byte of the input.
    - A [char *] is a [cptr]: [NULL] or a pointer to a C string.  The
      interpreter uses a token only through the string it points to,
      so [parseInput] is first given by value, on the text of the line.
      [Memory.parseInput] is the same code on the bytes of the buffer:
      there a token is an offset into the buffer, [strtok] overwrites
      the delimiter after it with NUL, and the structure is the row of
      pointers the compiler lays out.  [parseInput_memory_spec] shows
      that the two give the same command when the arguments fit.
    - [struct ShellCommand] has a fixed array [args] of [MAX_ARGS]
      pointers.  A local struct starts indeterminate; a cell is
      [None] until the code stores into it.  A store outside the array
      and a read of an indeterminate cell are undefined behaviour in C
      and are reported as a [fault].
    - Effects are threaded through one state-and-error monad [M]: the
      state holds the working directory, [errno], the bytes waiting on
      standard input, the save pointer of [strtok] and the trace of
      system calls.
    - The operating system is a collaborator: a [Kernel] gives the
      results of the system calls the shell makes.  A call is recorded
      in the trace when it is made; the buffering of stdio, the bytes a
      child takes from standard input and [free] are left out.
    - The two loops of the program, [while (token != NULL)] and
      [for (;;)], are defined with fuel, and the fuel they are given is
      proved never to run out. *)

From Stdlib Require Import ZArith Lia Ascii String.
From Stdlib Require Import DecimalString.
From stdpp Require Import base list strings.

Local Open Scope string_scope.
Local Open Scope list_scope.

(** ** Constants *)

Definition MAX_INPUT : nat := 1024.
Definition MAX_ARGS : nat := 100.

(** ** Pointers, faults and the command structure *)

Inductive cptr : Type :=
| NULL
| Ptr (s : string).

Inductive fault : Type :=
| OutOfBounds (i : nat)   (* store or load outside an array, at index i *)
| NullPointer             (* a null pointer passed where a string is read *)
| Indeterminate (i : nat) (* read of an array cell never written *)
| OutOfFuel.              (* the fuel of a modelled loop ran out *)

(** A cell of [char *args[MAX_ARGS]]: [None] is an indeterminate value. *)
Definition cell : Type := option cptr.

Record ShellCommand : Type := mkShellCommand {
  args : list cell;
  inputFile : cptr;
  outputFile : cptr
}.

Definition set_args (a : list cell) (command : ShellCommand) : ShellCommand :=
  {| args := a; inputFile := inputFile command; outputFile := outputFile command |}.

Definition set_inputFile (p : cptr) (command : ShellCommand) : ShellCommand :=
  {| args := args command; inputFile := p; outputFile := outputFile command |}.

Definition set_outputFile (p : cptr) (command : ShellCommand) : ShellCommand :=
  {| args := args command; inputFile := inputFile command; outputFile := p |}.

(** ** System calls and the process state *)

Inductive open_flag : Type := O_RDONLY | O_WRONLY | O_CREAT | O_TRUNC.

Definition STDIN_FILENO : Z := 0.
Definition STDOUT_FILENO : Z := 1.
Definition STDERR_FILENO : Z := 2.

(** What the process asks of the system, with the answer it got.  A
    result [inl v] is success with value [v], [inr e] is failure with
    [errno = e]. *)
Inductive syscall : Type :=
| SysWrite (fd : Z) (text : string)
| SysChdir (path : string) (r : string + Z)
| SysFork (r : positive + Z)
| SysOpen (path : string) (flags : list open_flag) (mode : option Z) (r : Z + Z)
| SysDup2 (oldfd newfd : Z)
| SysClose (fd : Z)
| SysExecvp (file : string) (argv : list string) (r : option Z)
| SysExit (status : Z)
| SysWait.

(** The process an event belongs to: after [fork] the same code runs in
    the interpreter and in its child. *)
Inductive process : Type := Parent | Child.

Definition event : Type := (process * syscall)%type.

Record State : Type := mkState {
  cwd : string;          (* the working directory of the interpreter *)
  errno : Z;             (* the error number of the last failed call *)
  stdin : string;        (* the bytes not yet read from standard input *)
  olds : string;         (* where the save pointer of strtok points *)
  trace : list event     (* system calls made so far, oldest first *)
}.

Definition set_cwd (d : string) (st : State) : State :=
  {| cwd := d; errno := errno st; stdin := stdin st; olds := olds st;
     trace := trace st |}.

Definition set_errno (e : Z) (st : State) : State :=
  {| cwd := cwd st; errno := e; stdin := stdin st; olds := olds st;
     trace := trace st |}.

Definition set_stdin (s : string) (st : State) : State :=
  {| cwd := cwd st; errno := errno st; stdin := s; olds := olds st;
     trace := trace st |}.

Definition set_olds (s : string) (st : State) : State :=
  {| cwd := cwd st; errno := errno st; stdin := stdin st; olds := s;
     trace := trace st |}.

Definition set_trace (t : list event) (st : State) : State :=
  {| cwd := cwd st; errno := errno st; stdin := stdin st; olds := olds st;
     trace := t |}.

Definition emit (e : event) (st : State) : State :=
  {| cwd := cwd st; errno := errno st; stdin := stdin st; olds := olds st;
     trace := trace st ++ [e] |}.

(** The answers of the operating system.  They may depend on everything
    that happened so far, which the state records. *)
Record Kernel : Type := mkKernel {
  sys_getcwd : State -> option Z;                  (* [Some e]: getcwd fails *)
  sys_malloc : State -> option Z;                  (* [Some e]: malloc fails *)
  sys_chdir : State -> string -> string + Z;       (* new directory, or errno *)
  sys_fork : State -> positive + Z;                (* pid of the child, or errno *)
  sys_open : State -> string -> list open_flag -> option Z -> Z + Z;
  sys_execvp : State -> string -> list string -> option Z; (* [Some e]: execvp returns *)
  strerror : Z -> string
}.

(** ** The monad of the interpreter *)

Inductive outcome (A : Type) : Type :=
| Ok (a : A) (st : State)          (* the code ran to its end *)
| Exited (status : Z) (st : State) (* exit() was called *)
| Replaced (st : State)            (* execvp replaced the process image *)
| Crashed (f : fault).             (* undefined behaviour was reached *)

Arguments Ok {A} a st.
Arguments Exited {A} status st.
Arguments Replaced {A} st.
Arguments Crashed {A} f.

Definition M (A : Type) : Type := State -> outcome A.

Definition ret {A : Type} (a : A) : M A := fun st => Ok a st.

Definition bind {A B : Type} (m : M A) (k : A -> M B) : M B :=
  fun st =>
    match m st with
    | Ok a st' => k a st'
    | Exited n st' => Exited n st'
    | Replaced st' => Replaced st'
    | Crashed f => Crashed f
    end.

Definition crash {A : Type} (f : fault) : M A := fun _ => Crashed f.

Definition exit {A : Type} (status : Z) : M A := fun st => Exited status st.

Definition get : M State := fun st => Ok st st.

Definition modify (f : State -> State) : M unit := fun st => Ok tt (f st).

Notation "x <- m ;; k" := (bind m (fun x => k))
  (at level 90, m at level 80, right associativity, only parsing).
Notation "m ;;; k" := (bind m (fun _ => k))
  (at level 90, right associativity, only parsing).

(** ** libc: strings *)

(** The C string a run of bytes holds: the bytes before its first NUL. *)
Fixpoint cstring (s : string) : string :=
  match s with
  | EmptyString => EmptyString
  | String c s' => if Ascii.eqb c "000" then EmptyString else String c (cstring s')
  end.

(** [strcmp] reads both strings: a null argument is undefined behaviour. *)
Definition strcmp (a b : cptr) : M Z :=
  match a, b with
  | Ptr s1, Ptr s2 =>
      ret (match String.compare s1 s2 with Eq => 0 | Lt => -1 | Gt => 1 end)%Z
  | _, _ => crash NullPointer
  end.

Definition is_delim (delim : string) (c : ascii) : bool :=
  existsb (Ascii.eqb c) (list_ascii_of_string delim).

(** [s + strspn(s, delim)]: the string after its leading delimiters. *)
Fixpoint skip_delims (delim : string) (s : string) : string :=
  match s with
  | EmptyString => EmptyString
  | String c s' => if is_delim delim c then skip_delims delim s' else s
  end.

(** The token at the head of [s] and what follows the delimiter that
    ends it ([strpbrk]); at the end of the string nothing follows. *)
Fixpoint scan_token (delim : string) (s : string) : string * string :=
  match s with
  | EmptyString => (EmptyString, EmptyString)
  | String c s' =>
      if is_delim delim c then (EmptyString, s')
      else let '(tok, rest) := scan_token delim s' in (String c tok, rest)
  end.

(** [strtok] (ISO C 7.24.5.8).  A non-null [s] starts a new scan; a null
    [s] continues from the save pointer.  Leading delimiters are skipped;
    if nothing is left the result is null and the save pointer stays at
    the end of the string.  Otherwise the token runs to the next
    delimiter, which is overwritten with NUL, and the save pointer moves
    past it.  Here the strings are values: the token is returned as the
    string the write makes of it, and the save pointer is the string
    that is left.  [Memory.strtok] below does the write. *)
Definition strtok (s : cptr) (delim : string) : M cptr :=
  st <- get ;;
  let start := match s with Ptr s => s | NULL => olds st end in
  let start := skip_delims delim start in
  match start with
  | EmptyString => modify (set_olds EmptyString) ;;; ret NULL
  | String _ _ =>
      let '(tok, rest) := scan_token delim start in
      modify (set_olds rest) ;;; ret (Ptr tok)
  end.

(** ** Arrays *)

(** [a[i] = v]; outside the array the store is undefined behaviour. *)
Definition store (a : list cell) (i : nat) (v : cptr) : M (list cell) :=
  if decide (i < length a) then ret (<[i := Some v]> a) else crash (OutOfBounds i).

(** The value of [a[i]]. *)
Definition load (a : list cell) (i : nat) : M cptr :=
  match a !! i with
  | Some (Some p) => ret p
  | Some None => crash (Indeterminate i)
  | None => crash (OutOfBounds i)
  end.

(** ** parseInput *)

Definition DELIM : string := String " " (String "010" EmptyString).

Fixpoint parse_loop (fuel : nat) (token : cptr) (command : ShellCommand) (i : nat)
  : M (ShellCommand * nat) :=
  match token with
  | NULL => ret (command, i)
  | Ptr _ =>
      match fuel with
      | O => crash OutOfFuel
      | S fuel =>
          lt <- strcmp token (Ptr "<") ;;
          if (lt =? 0)%Z then
            token <- strtok NULL DELIM ;;
            let command := set_inputFile token command in
            token <- strtok NULL DELIM ;;
            parse_loop fuel token command i
          else
            gt <- strcmp token (Ptr ">") ;;
            if (gt =? 0)%Z then
              token <- strtok NULL DELIM ;;
              let command := set_outputFile token command in
              token <- strtok NULL DELIM ;;
              parse_loop fuel token command i
            else
              a <- store (args command) i token ;;
              let command := set_args a command in
              let i := i + 1 in
              token <- strtok NULL DELIM ;;
              parse_loop fuel token command i
      end
  end.

(** [input] is the line [main] read, never null.  Every turn of the loop
    uses up a token of at least one character, so the length of the line
    bounds the number of turns. *)
Definition parseInput (input : string) : M ShellCommand :=
  let command :=
    {| args := replicate MAX_ARGS None; inputFile := NULL; outputFile := NULL |} in
  let i := 0 in
  token <- strtok (Ptr input) DELIM ;;
  r <- parse_loop (String.length input) token command i ;;
  let '(command, i) := r in
  a <- store (args command) i NULL ;;
  ret (set_args a command).

(** * parseInput on the memory of the process

    The same code on the bytes it works on.  [input] points to the
    buffer [getInput] filled, a token is a pointer into that buffer,
    and [strtok] makes it a string by writing a NUL over the delimiter
    that ends it: the buffer is not the same after the parse.  The
    structure is a row of pointers, and a store through [args[i]] goes
    to the cell [i] of the row whatever [i] is. *)

Module Memory.

Definition NUL : ascii := "000".

(** A [char *] into the buffer: null, or the offset of a byte. *)
Inductive pointer : Type :=
| Null
| At (p : nat).

(** The memory [parseInput] works on.
    - [buffer]: the bytes [fgets] stored at [input].  The byte after
      the last of them is the NUL [fgets] adds; [strtok] reads it and
      does not write there.
    - [save]: the save pointer of [strtok].
    - [command]: the local [struct ShellCommand command], one cell for
      each pointer in the order of the declaration: [args[0]] to
      [args[MAX_ARGS - 1]], then [inputFile], then [outputFile].  The
      members all have the size and the alignment of a pointer, so no
      padding separates them.  A cell is [None] until it is stored to. *)
Record Mem : Type := mkMem {
  buffer : list ascii;
  save : nat;
  command : list (option pointer)
}.

Definition INPUT_FILE : nat := MAX_ARGS.
Definition OUTPUT_FILE : nat := MAX_ARGS + 1.

(** The number of pointers in the structure. *)
Definition SIZE : nat := MAX_ARGS + 2.

Definition set_buffer (b : list ascii) (m : Mem) : Mem :=
  {| buffer := b; save := save m; command := command m |}.

Definition set_save (p : nat) (m : Mem) : Mem :=
  {| buffer := buffer m; save := p; command := command m |}.

Definition set_command (c : list (option pointer)) (m : Mem) : Mem :=
  {| buffer := buffer m; save := save m; command := c |}.

(** The byte at an offset of the buffer. *)
Definition byte (buf : list ascii) (p : nat) : ascii := default NUL (buf !! p).

(** The C string that bytes hold, and the C string at an offset of the
    buffer. *)
Definition cstring_of (bytes : list ascii) : string :=
  cstring (string_of_list_ascii bytes).

Definition string_at (buf : list ascii) (p : nat) : string :=
  cstring_of (drop p buf).

(** [strspn(s, delim)]: the number of leading bytes that are delimiters. *)
Fixpoint strspn (delim : string) (s : list ascii) : nat :=
  match s with
  | [] => 0
  | c :: s' =>
      if negb (Ascii.eqb c NUL) && is_delim delim c then S (strspn delim s') else 0
  end.

(** [strcspn(s, delim)]: the number of leading bytes that are not
    delimiters. *)
Fixpoint strcspn (delim : string) (s : list ascii) : nat :=
  match s with
  | [] => 0
  | c :: s' =>
      if Ascii.eqb c NUL || is_delim delim c then 0 else S (strcspn delim s')
  end.

(** [strtok] (ISO C 7.24.5.8) on the buffer.  The scan starts at [s],
    or at the save pointer when [s] is null, and skips the delimiters.
    At the end of the string the result is null.  Otherwise the token
    runs to the next delimiter, which is overwritten with NUL, and the
    save pointer is set after it; a token that runs to the end of the
    string leaves the save pointer at the end. *)
Definition strtok (s : pointer) (delim : string) (m : Mem) : pointer * Mem :=
  let start := match s with At p => p | Null => save m end in
  let token := start + strspn delim (drop start (buffer m)) in
  if Ascii.eqb (byte (buffer m) token) NUL then (Null, set_save token m)
  else
    let stop := token + strcspn delim (drop token (buffer m)) in
    if Ascii.eqb (byte (buffer m) stop) NUL then (At token, set_save stop m)
    else (At token, set_save (S stop) (set_buffer (<[stop := NUL]> (buffer m)) m)).

(** [command.args[i] = v].  The store goes to the cell [i] of the
    structure: from [MAX_ARGS] on it is outside [args], in the cells of
    [inputFile] and [outputFile], and from [SIZE] on it is outside the
    structure. *)
Definition store_args (i : nat) (v : pointer) (m : Mem) : fault + Mem :=
  if decide (i < length (command m))
  then inr (set_command (<[i := Some v]> (command m)) m)
  else inl (OutOfBounds i).

(** [command.inputFile = v] and [command.outputFile = v] *)
Definition store_field (field : nat) (v : pointer) (m : Mem) : Mem :=
  set_command (<[field := Some v]> (command m)) m.

(** [strcmp(token, s) == 0] *)
Definition token_is (m : Mem) (token : nat) (s : string) : bool :=
  String.eqb (string_at (buffer m) token) s.

Fixpoint parse_loop (fuel : nat) (token : pointer) (m : Mem) (i : nat)
  : fault + Mem * nat :=
  match token with
  | Null => inr (m, i)
  | At t =>
      match fuel with
      | O => inl OutOfFuel
      | S fuel =>
          if token_is m t "<" then
            let '(token, m) := strtok Null DELIM m in
            let m := store_field INPUT_FILE token m in
            let '(token, m) := strtok Null DELIM m in
            parse_loop fuel token m i
          else if token_is m t ">" then
            let '(token, m) := strtok Null DELIM m in
            let m := store_field OUTPUT_FILE token m in
            let '(token, m) := strtok Null DELIM m in
            parse_loop fuel token m i
          else
            match store_args i token m with
            | inl f => inl f
            | inr m =>
                let i := i + 1 in
                let '(token, m) := strtok Null DELIM m in
                parse_loop fuel token m i
            end
      end
  end.

(** [parseInput(input)], where [input] points to the first of the bytes
    [input_bytes].  The result is the memory at [return command]: the
    structure returned, and the buffer its pointers point into. *)
Definition parseInput (input_bytes : list ascii) : fault + Mem :=
  let m := {| buffer := input_bytes; save := 0; command := replicate SIZE None |} in
  let m := store_field INPUT_FILE Null m in
  let m := store_field OUTPUT_FILE Null m in
  let i := 0 in
  let '(token, m) := strtok (At 0) DELIM m in
  match parse_loop (length input_bytes) token m i with
  | inl f => inl f
  | inr (m, i) => store_args i Null m
  end.

(** The value of a cell, with the string a pointer points to. *)
Definition value (buf : list ascii) (c : option pointer) : cell :=
  match c with
  | None => None
  | Some Null => Some NULL
  | Some (At p) => Some (Ptr (string_at buf p))
  end.

(** The command a memory holds, as the caller of [parseInput] reads
    it: [args] is the first [MAX_ARGS] cells. *)
Definition command_at (m : Mem) : ShellCommand :=
  {| args := value (buffer m) <$> take MAX_ARGS (command m);
     inputFile :=
       default NULL (value (buffer m) (default None (command m !! INPUT_FILE)));
     outputFile :=
       default NULL (value (buffer m) (default None (command m !! OUTPUT_FILE))) |}.

End Memory.

(** ** libc and system calls, as the interpreter uses them *)

Section Interpreter.

Context (K : Kernel).

(** [%d] of an [int] *)
Definition fmt_d (n : Z) : string := NilZero.string_of_int (Z.to_int n).

Definition NL : string := String "010" EmptyString.

(** Output through stdio, recorded at the call. *)
Definition fputs (who : process) (fd : Z) (text : string) : M unit :=
  modify (emit (who, SysWrite fd text)).

(** [printf("Error %d (%s)\n", errno, strerror(errno))] *)
Definition print_error (who : process) : M unit :=
  st <- get ;;
  fputs who STDOUT_FILENO
    ("Error " ++ fmt_d (errno st) ++ " (" ++ strerror K (errno st) ++ ")" ++ NL).

(** [perror(s)] *)
Definition perror (who : process) (s : string) : M unit :=
  st <- get ;;
  fputs who STDERR_FILENO (s ++ ": " ++ strerror K (errno st) ++ NL).

(** [getcwd(cwd, sizeof(cwd)) != NULL] and the buffer it filled *)
Definition getcwd : M cptr :=
  st <- get ;;
  match sys_getcwd K st with
  | None => ret (Ptr (cwd st))
  | Some e => modify (set_errno e) ;;; ret NULL
  end.

(** [malloc(MAX_INPUT) != NULL] *)
Definition malloc : M bool :=
  st <- get ;;
  match sys_malloc K st with
  | None => ret true
  | Some e => modify (set_errno e) ;;; ret false
  end.

(** What [fgets] takes from the stream with room for [n] characters: it
    stops after a newline, when the room is used up, or at the end. *)
Fixpoint read_line (n : nat) (s : string) : string * string :=
  match n, s with
  | O, _ => (EmptyString, s)
  | S _, EmptyString => (EmptyString, EmptyString)
  | S n', String c s' =>
      if Ascii.eqb c "010" then (String c EmptyString, s')
      else let '(l, rest) := read_line n' s' in (String c l, rest)
  end.

(** [fgets(buffer, size, stdin)]: null when the stream has ended.
    Otherwise the bytes read are stored in the buffer with a NUL after
    them, and the caller gets the buffer, which it reads as a C string. *)
Definition fgets (size : nat) : M cptr :=
  st <- get ;;
  match read_line (size - 1) (stdin st) with
  | (EmptyString, _) => ret NULL
  | (l, rest) => modify (set_stdin rest) ;;; ret (Ptr (cstring l))
  end.

Definition chdir (path : cptr) : M Z :=
  match path with
  | NULL => crash NullPointer
  | Ptr p =>
      st <- get ;;
      let r := sys_chdir K st p in
      modify (emit (Parent, SysChdir p r)) ;;;
      match r with
      | inl d => modify (set_cwd d) ;;; ret 0%Z
      | inr e => modify (set_errno e) ;;; ret (-1)%Z
      end
  end.

Definition open (who : process) (path : cptr) (flags : list open_flag)
    (mode : option Z) : M Z :=
  match path with
  | NULL => crash NullPointer
  | Ptr p =>
      st <- get ;;
      let r := sys_open K st p flags mode in
      modify (emit (who, SysOpen p flags mode r)) ;;;
      match r with
      | inl fd => ret fd
      | inr e => modify (set_errno e) ;;; ret (-1)%Z
      end
  end.

Definition dup2 (who : process) (oldfd newfd : Z) : M unit :=
  modify (emit (who, SysDup2 oldfd newfd)).

Definition close (who : process) (fd : Z) : M unit :=
  modify (emit (who, SysClose fd)).

Definition wait (who : process) : M unit :=
  modify (emit (who, SysWait)).

(** [exit(status)] in process [who] *)
Definition exit_process (who : process) (status : Z) : M unit :=
  modify (emit (who, SysExit status)) ;;; exit status.

(** The strings of a null-terminated array of pointers. *)
Fixpoint read_argv (a : list cell) (i : nat) : M (list string) :=
  match a with
  | [] => crash (OutOfBounds i)
  | None :: _ => crash (Indeterminate i)
  | Some NULL :: _ => ret []
  | Some (Ptr s) :: a' => l <- read_argv a' (S i) ;; ret (s :: l)
  end.

(** [execvp(file, argv)]: returns only when it fails. *)
Definition execvp (who : process) (file : cptr) (argv : list cell) : M Z :=
  match file with
  | NULL => crash NullPointer
  | Ptr f =>
      l <- read_argv argv 0 ;;
      st <- get ;;
      let r := sys_execvp K st f l in
      modify (emit (who, SysExecvp f l r)) ;;;
      match r with
      | None => fun st => Replaced st
      | Some e => modify (set_errno e) ;;; ret (-1)%Z
      end
  end.

(** ** displayPrompt and getInput *)

Definition displayPrompt : M unit :=
  p <- getcwd ;;
  match p with
  | Ptr d => fputs Parent STDOUT_FILENO (d ++ "$ ")
  | NULL => perror Parent "getcwd"
  end.

Definition getInput : M cptr :=
  ok <- malloc ;;
  if negb ok then
    perror Parent "malloc" ;;; exit_process Parent 1 ;;; ret NULL
  else
    fgets MAX_INPUT.

(** ** executeCommand *)

(** The code after [pid = fork()], run by process [who]. *)
Definition after_fork (who : process) (command : ShellCommand) (pid : Z) : M unit :=
  if (pid <? 0)%Z then
    perror who "fork"
  else if (pid =? 0)%Z then
    (match inputFile command with
     | NULL => ret tt
     | Ptr _ =>
         fd <- open who (inputFile command) [O_RDONLY] None ;;
         (if (fd <? 0)%Z then print_error who ;;; exit_process who 1 else ret tt) ;;;
         dup2 who fd STDIN_FILENO ;;;
         close who fd
     end) ;;;
    (match outputFile command with
     | NULL => ret tt
     | Ptr _ =>
         fd <- open who (outputFile command) [O_WRONLY; O_CREAT; O_TRUNC]
                 (Some 420%Z) ;;
         (if (fd <? 0)%Z then print_error who ;;; exit_process who 1 else ret tt) ;;;
         dup2 who fd STDOUT_FILENO ;;;
         close who fd
     end) ;;;
    file <- load (args command) 0 ;;
    execvp who file (args command) ;;;
    print_error who ;;;
    exit_process who 1
  else
    wait who.

(** [fork()]: on success the child runs the code that follows with
    [pid = 0] on its own copy of the state; the interpreter sees what the
    child did only through the trace, and goes on with the child's pid. *)
Definition fork_and (body : process -> Z -> M unit) : M unit :=
  st <- get ;;
  let r := sys_fork K st in
  modify (emit (Parent, SysFork r)) ;;;
  match r with
  | inr e => modify (set_errno e) ;;; body Parent (-1)%Z
  | inl pid =>
      (fun st =>
         match body Child 0%Z st with
         | Ok _ st' | Exited _ st' | Replaced st' => Ok tt (set_trace (trace st') st)
         | Crashed f => Crashed f
         end) ;;;
      body Parent (Z.pos pid)
  end.

Definition executeCommand (command : ShellCommand) : M unit :=
  a0 <- load (args command) 0 ;;
  match a0 with
  | NULL => ret tt
  | Ptr _ =>
      c <- strcmp a0 (Ptr "exit") ;;
      if (c =? 0)%Z then exit_process Parent 0
      else
        c <- strcmp a0 (Ptr "cd") ;;
        if (c =? 0)%Z then
          a1 <- load (args command) 1 ;;
          match a1 with
          | NULL => fputs Parent STDERR_FILENO ("cd: missing argument" ++ NL)
          | Ptr _ =>
              r <- chdir a1 ;;
              if negb (r =? 0)%Z then print_error Parent else ret tt
          end
        else
          fork_and (fun who pid => after_fork who command pid)
  end.

(** ** main *)

(** One turn of [for (;;)]: [true] goes round again, [false] is [break]. *)
Definition loop_body : M bool :=
  displayPrompt ;;;
  input <- getInput ;;
  match input with
  | NULL => ret false
  | Ptr line =>
      c <- strcmp input (Ptr NL) ;;
      if (c =? 0)%Z then ret true
      else
        command <- parseInput line ;;
        executeCommand command ;;;
        ret true
  end.

(** Each turn that goes round again has taken at least one byte from
    standard input, so the bytes waiting bound the number of turns. *)
Fixpoint main_loop (fuel : nat) : M unit :=
  match fuel with
  | O => crash OutOfFuel
  | S fuel =>
      again <- loop_body ;;
      if again then main_loop fuel else ret tt
  end.

Definition main : M Z :=
  st <- get ;;
  main_loop (S (String.length (stdin st))) ;;;
  ret 0%Z.

End Interpreter.

(** * The tokens of a line

    The vocabulary of the specification: the tokens of a line are its
    maximal runs of characters other than space and newline; a token [<]
    or [>] is a redirection operator and takes the token after it as its
    path; the other tokens are the arguments. *)

Definition is_space (c : ascii) : bool := is_delim DELIM c.

Definition blank (line : string) : bool :=
  forallb is_space (list_ascii_of_string line).

Fixpoint tokens (s : string) : list string :=
  match s with
  | EmptyString => []
  | String c s' =>
      if is_space c then tokens s'
      else
        match s' with
        | EmptyString => [String c EmptyString]
        | String c' _ =>
            if is_space c' then String c EmptyString :: tokens s'
            else
              match tokens s' with
              | t :: ts => String c t :: ts
              | [] => [String c EmptyString]
              end
        end
  end.

(** A word: one character or more, none of them a space or a newline. *)
Definition is_word (w : string) : bool :=
  negb (String.eqb w EmptyString)
  && forallb (fun c => negb (is_space c)) (list_ascii_of_string w).

Definition is_op (t : string) : bool := String.eqb t "<" || String.eqb t ">".

(** The tokens that are neither an operator nor taken by one. *)
Fixpoint arguments (toks : list string) : list string :=
  match toks with
  | [] => []
  | t :: rest =>
      if is_op t then
        match rest with
        | [] => []
        | _ :: rest' => arguments rest'
        end
      else t :: arguments rest
  end.

(** The operators of the line in order, each with the token that follows
    it, or [NULL] when the line ends with the operator. *)
Fixpoint redirections (toks : list string) : list (string * cptr) :=
  match toks with
  | [] => []
  | t :: rest =>
      if is_op t then
        match rest with
        | [] => [(t, NULL)]
        | p :: rest' => (t, Ptr p) :: redirections rest'
        end
      else redirections rest
  end.

(** What follows each occurrence of the operator [op]. *)
Definition paths (op : string) (toks : list string) : list cptr :=
  snd <$> filter (fun r => String.eqb (fst r) op = true) (redirections toks).

(** Every token is an operator or the path of the operator before it. *)
Fixpoint only_redirections (toks : list string) : bool :=
  match toks with
  | [] => true
  | t :: rest =>
      is_op t &&
      match rest with
      | [] => true
      | _ :: rest' => only_redirections rest'
      end
  end.

(** The arguments a command holds: the strings of [args] before the
    first cell that is not a pointer to a string. *)
Fixpoint argv_upto_null (a : list cell) : list string :=
  match a with
  | Some (Ptr s) :: a' => s :: argv_upto_null a'
  | _ => []
  end.

Definition argv (command : ShellCommand) : list string :=
  argv_upto_null (args command).

(** The array the parser leaves for a list of arguments. *)
Definition args_of (l : list string) : list cell :=
  (Some <$> (Ptr <$> l)) ++ Some NULL :: replicate (MAX_ARGS - S (length l)) None.

(** The command the specification describes for a list of tokens. *)
Definition command_of (toks : list string) : ShellCommand :=
  {| args := args_of (arguments toks);
     inputFile := default NULL (last (paths "<" toks));
     outputFile := default NULL (last (paths ">" toks)) |}.

(** The pointer [strtok] returns when these tokens are left. *)
Definition head_ptr (toks : list string) : cptr :=
  match toks with
  | [] => NULL
  | t :: _ => Ptr t
  end.

(** The command after the loop has run over the tokens [rem], starting
    from [command] with [i] arguments stored. *)
Definition loop_result (command : ShellCommand) (i : nat) (rem : list string)
  : ShellCommand :=
  {| args := take i (args command) ++ (Some <$> (Ptr <$> arguments rem))
             ++ drop (i + length (arguments rem)) (args command);
     inputFile := default (inputFile command) (last (paths "<" rem));
     outputFile := default (outputFile command) (last (paths ">" rem)) |}.

(** The state a computation ends in, unless it crashed. *)
Definition final_state {A : Type} (o : outcome A) : option State :=
  match o with
  | Ok _ st | Exited _ st | Replaced st => Some st
  | Crashed _ => None
  end.

(** [keeps obs m]: the computation [m] does not crash and ends in a
    state with the same observation [obs] as the one it started from. *)
Definition keeps {A B : Type} (obs : State -> B) (m : M A) : Prop :=
  forall st, exists st',
    final_state (m st) = Some st' /\ obs st' = obs st.

Global Instance open_flag_eq_dec : EqDecision open_flag.
Proof. solve_decision. Defined.

(** The calls of [open] with the given flags. *)
Definition is_open_with (flags : list open_flag) (e : event) : bool :=
  match e with
  | (_, SysOpen _ fl _ _) => bool_decide (fl = flags)
  | _ => false
  end.

Definition opens (flags : list open_flag) (st : State) : list event :=
  List.filter (is_open_with flags) (trace st).

(** The field of the command and the flags of [open] that belong to an
    operator. *)
Definition field_of (op : string) (command : ShellCommand) : cptr :=
  if String.eqb op "<" then inputFile command else outputFile command.

Definition flags_of (op : string) : list open_flag :=
  if String.eqb op "<" then [O_RDONLY] else [O_WRONLY; O_CREAT; O_TRUNC].

(** ** Data for the examples *)

Fixpoint repeat_string (n : nat) (s : string) : string :=
  match n with
  | O => EmptyString
  | S n' => s ++ repeat_string n' s
  end.

(** A line of [MAX_ARGS] one-letter words: 201 bytes, well within what
    [fgets] delivers. *)
Definition hundred_words : string := repeat_string MAX_ARGS "a " ++ NL.

(** A state to run examples from. *)
Definition initial_state (input : string) : State :=
  {| cwd := "/home/user"; errno := 0; stdin := input; olds := ""; trace := [] |}.

(** A system on which [/tmp] is the only directory one can change to. *)
Definition demo_kernel : Kernel :=
  {| sys_getcwd := fun _ => None;
     sys_malloc := fun _ => None;
     sys_chdir := fun _ p => if String.eqb p "/tmp" then inl "/tmp" else inr 2%Z;
     sys_fork := fun _ => inl 4242%positive;
     sys_open := fun _ _ _ _ => inl 3%Z;
     sys_execvp := fun _ _ _ => None;
     strerror := fun e => if (e =? 2)%Z then "No such file or directory"
                          else "Unknown error" |}.

(** ** Vocabulary of the further properties *)

(** The arguments of the command are followed by a null pointer, as
    [execvp] requires. *)
Definition terminated (command : ShellCommand) : Prop :=
  args command !! length (argv command) = Some (Some NULL).

(** The line holds a newline. *)
Definition has_newline (line : string) : bool :=
  existsb (Ascii.eqb "010") (list_ascii_of_string line).

(** The bytes hold a NUL. *)
Definition has_nul (s : string) : bool :=
  existsb (Ascii.eqb "000") (list_ascii_of_string s).






(** ** Vocabulary of the parser on memory *)

(** [token_at m token toks]: [token] is what [strtok] returns when the
    tokens [toks] are left: null when none is, and otherwise a pointer
    to the first of them, a string that ends before the save pointer
    or at it. *)
Definition token_at (m : Memory.Mem) (token : Memory.pointer) (toks : list string)
  : Prop :=
  match toks with
  | [] => token = Memory.Null
  | t :: _ =>
      exists p, token = Memory.At p
                /\ Memory.string_at (Memory.buffer m) p = t
                /\ p + String.length t <= Memory.save m
  end.

(** The strings the structure points to end before the save pointer or
    at it: [strtok] will not write into them. *)
Definition frozen (m : Memory.Mem) : Prop :=
  forall j p,
    Memory.command m !! j = Some (Some (Memory.At p)) ->
    p + String.length (Memory.string_at (Memory.buffer m) p) <= Memory.save m.

(** A line of [MAX_ARGS + 1] one-letter words, 203 bytes. *)
Definition hundred_one_words : string := repeat_string (MAX_ARGS + 1) "a " ++ NL.

(** What the child reports when a call has failed with [errno = e]. *)
Definition error_line (K : Kernel) (e : Z) : string :=
  "Error " ++ fmt_d e ++ " (" ++ strerror K e ++ ")" ++ NL.

(** A system out of processes: [fork] fails with [EAGAIN]. *)
Definition busy_kernel : Kernel :=
  {| sys_getcwd := fun _ => None;
     sys_malloc := fun _ => None;
     sys_chdir := fun _ _ => inr 2%Z;
     sys_fork := fun _ => inr 11%Z;
     sys_open := fun _ _ _ _ => inl 3%Z;
     sys_execvp := fun _ _ _ => None;
     strerror := fun e => if (e =? 11)%Z then "Resource temporarily unavailable"
                          else "Unknown error" |}.

(** A system with no file and no program: [open] and [execvp] fail with
    [ENOENT]. *)
Definition empty_kernel : Kernel :=
  {| sys_getcwd := fun _ => None;
     sys_malloc := fun _ => None;
     sys_chdir := fun _ _ => inr 2%Z;
     sys_fork := fun _ => inl 4242%positive;
     sys_open := fun _ _ _ _ => inr 2%Z;
     sys_execvp := fun _ _ _ => Some 2%Z;
     strerror := fun e => if (e =? 2)%Z then "No such file or directory"
                          else "Unknown error" |}.

(** * Lemmas *)

(** ** Lemmas on C strings *)

Lemma cstring_cons c s :
  cstring (String c s) = if Ascii.eqb c "000" then EmptyString else String c (cstring s).
Proof. reflexivity. Qed.

Lemma has_nul_cons c s : has_nul (String c s) = Ascii.eqb "000" c || has_nul s.
Proof. reflexivity. Qed.

(** Bytes without a NUL are a C string as they are. *)
Lemma cstring_id s : has_nul s = false -> cstring s = s.
Proof.
  induction s as [|c s IH]; [done|].
  rewrite has_nul_cons, cstring_cons, Ascii.eqb_sym.
  intros (-> & H)%orb_false_iff. by rewrite IH.
Qed.

Lemma cstring_has_nul s : has_nul (cstring s) = false.
Proof.
  induction s as [|c s IH]; [done|].
  rewrite cstring_cons. destruct (Ascii.eqb c "000") eqn:E; [done|].
  by rewrite has_nul_cons, Ascii.eqb_sym, E, IH.
Qed.

Lemma cstring_length s : String.length (cstring s) <= String.length s.
Proof.
  induction s as [|c s IH]; [done|].
  rewrite cstring_cons. destruct (Ascii.eqb c "000"); simpl; lia.
Qed.

Lemma cstring_idemp s : cstring (cstring s) = cstring s.
Proof. apply cstring_id, cstring_has_nul. Qed.

(** ** Lemmas on the tokenizer *)

Lemma is_space_spec c : is_space c = true <-> c = " "%char \/ c = "010"%char.
Proof.
  unfold is_space, is_delim, DELIM. simpl.
  rewrite !orb_true_iff, !Ascii.eqb_eq. intuition discriminate.
Qed.

Lemma skip_delims_cons c s :
  skip_delims DELIM (String c s) = if is_space c then skip_delims DELIM s else String c s.
Proof. reflexivity. Qed.

Lemma scan_token_cons c s :
  scan_token DELIM (String c s) =
  if is_space c then (EmptyString, s)
  else let '(t, r) := scan_token DELIM s in (String c t, r).
Proof. reflexivity. Qed.

Lemma tokens_cons c s :
  tokens (String c s) =
  if is_space c then tokens s
  else
    match s with
    | EmptyString => [String c EmptyString]
    | String d _ =>
        if is_space d then String c EmptyString :: tokens s
        else
          match tokens s with
          | t :: ts => String c t :: ts
          | [] => [String c EmptyString]
          end
    end.
Proof. reflexivity. Qed.

Lemma tokens_skip_delims s : tokens (skip_delims DELIM s) = tokens s.
Proof.
  induction s as [|c s IH]; [done|].
  rewrite skip_delims_cons, (tokens_cons c s).
  destruct (is_space c) eqn:E; [done|].
  by rewrite tokens_cons, E.
Qed.

Lemma skip_delims_head s c s' :
  skip_delims DELIM s = String c s' -> is_space c = false.
Proof.
  induction s as [|d s IH]; [done|].
  rewrite skip_delims_cons. destruct (is_space d) eqn:E; [done|].
  by intros [= -> ->].
Qed.

Lemma skip_delims_empty s : skip_delims DELIM s = EmptyString -> tokens s = [].
Proof. intros H. by rewrite <- tokens_skip_delims, H. Qed.

Lemma scan_token_tokens c s tok rest :
  is_space c = false ->
  scan_token DELIM (String c s) = (tok, rest) ->
  tokens (String c s) = tok :: tokens rest.
Proof.
  revert c tok rest. induction s as [|d s IH]; intros c tok rest Hc.
  - rewrite scan_token_cons, tokens_cons, Hc. simpl. by intros [= <- <-].
  - rewrite scan_token_cons, tokens_cons, Hc.
    destruct (is_space d) eqn:Hd.
    + rewrite scan_token_cons, Hd. intros [= <- <-].
      by rewrite (tokens_cons d s), Hd.
    + destruct (scan_token DELIM (String d s)) as [t r] eqn:Hscan.
      intros [= <- <-]. by rewrite (IH d t r Hd Hscan).
Qed.

Lemma tokens_length s : length (tokens s) <= String.length s.
Proof.
  induction s as [|c s IH]; simpl; [lia|].
  destruct (is_space c); [lia|].
  destruct s as [|d s]; [simpl; lia|].
  destruct (is_space d); [simpl in *; lia|].
  destruct (tokens (String d s)); simpl in *; lia.
Qed.

Lemma blank_tokens line : blank line = true <-> tokens line = [].
Proof.
  unfold blank. induction line as [|c s IH]; simpl; [done|].
  destruct (is_space c) eqn:E; simpl; [done|].
  split; [done|].
  destruct s as [|d s]; [done|].
  destruct (is_space d); [done|].
  by destruct (tokens (String d s)).
Qed.

(** A blank line holds no NUL: it is the C string [fgets] delivers. *)
Lemma blank_has_nul line : blank line = true -> has_nul line = false.
Proof.
  unfold blank. induction line as [|c s IH]; [done|].
  cbn [list_ascii_of_string forallb]. rewrite has_nul_cons.
  intros (Hc & Hs)%andb_true_iff. rewrite (IH Hs), orb_false_r.
  apply is_space_spec in Hc as [-> | ->]; reflexivity.
Qed.

(** The tokens are the words of the line: leading spaces are dropped,
    a word runs up to the next space, and every token is a word. *)
Lemma tokens_space c s : is_space c = true -> tokens (String c s) = tokens s.
Proof. intros H. by rewrite tokens_cons, H. Qed.

Lemma is_word_cons a w :
  is_word (String a w) = negb (is_space a) && (String.eqb w EmptyString || is_word w).
Proof.
  unfold is_word. cbn [String.eqb negb list_ascii_of_string forallb andb].
  destruct w as [|b w]; [simpl; by rewrite andb_true_r|done].
Qed.

Lemma tokens_word_space w c s :
  is_word w = true -> is_space c = true ->
  tokens (w ++ String c s) = w :: tokens s.
Proof.
  intros Hw Hc. induction w as [|a w IH]; [done|].
  rewrite is_word_cons in Hw. apply andb_true_iff in Hw as (Ha & Hw).
  apply negb_true_iff in Ha.
  change (tokens (String a (w ++ String c s)) = String a w :: tokens s).
  rewrite tokens_cons, Ha.
  destruct w as [|b w].
  - change (EmptyString ++ String c s)%string with (String c s). cbv iota.
    by rewrite Hc, tokens_space.
  - apply orb_true_iff in Hw as [Hw|Hw]; [done|].
    pose proof Hw as Hb. rewrite is_word_cons in Hb.
    apply andb_true_iff in Hb as (Hb & _). apply negb_true_iff in Hb.
    rewrite (IH Hw).
    change (String b w ++ String c s)%string with (String b (w ++ String c s)).
    cbv iota. by rewrite Hb.
Qed.

Lemma tokens_word w : is_word w = true -> tokens w = [w].
Proof.
  intros Hw. induction w as [|a w IH]; [done|].
  rewrite is_word_cons in Hw. apply andb_true_iff in Hw as (Ha & Hw).
  apply negb_true_iff in Ha. rewrite tokens_cons, Ha.
  destruct w as [|b w]; [done|].
  apply orb_true_iff in Hw as [Hw|Hw]; [done|].
  pose proof Hw as Hb. rewrite is_word_cons in Hb.
  apply andb_true_iff in Hb as (Hb & _). apply negb_true_iff in Hb.
  by rewrite (IH Hw), Hb.
Qed.

Lemma tokens_words s : Forall (fun t => is_word t = true) (tokens s).
Proof.
  induction s as [|c s IH]; [constructor|].
  rewrite tokens_cons. destruct (is_space c) eqn:Hc; [done|].
  assert (is_word (String c EmptyString) = true) as H1
    by (rewrite is_word_cons, Hc; done).
  destruct s as [|d s]; [by repeat constructor|].
  destruct (is_space d) eqn:Hd; [by constructor|].
  destruct (tokens (String d s)) as [|t ts]; [by repeat constructor|].
  inversion IH as [|? ? Ht Hts]; subst. constructor; [|done].
  rewrite is_word_cons, Hc, Ht. cbn [negb andb]. apply orb_true_r.
Qed.

Lemma strtok_spec p st :
  let src := match p with Ptr s => s | NULL => olds st end in
  exists o, strtok p DELIM st = Ok (head_ptr (tokens src)) (set_olds o st)
            /\ tokens o = tail (tokens src).
Proof.
  intros src. unfold strtok, bind, get. fold src.
  destruct (skip_delims DELIM src) as [|c s'] eqn:Hskip.
  - exists EmptyString. by rewrite (skip_delims_empty _ Hskip).
  - destruct (scan_token DELIM (String c s')) as [tok rest] eqn:Hscan.
    exists rest. rewrite <- (tokens_skip_delims src), Hskip.
    by rewrite (scan_token_tokens c s' tok rest (skip_delims_head _ _ _ Hskip) Hscan).
Qed.

Lemma bind_ret {A B} (a : A) (k : A -> M B) st : bind (ret a) k st = k a st.
Proof. reflexivity. Qed.

Lemma bind_crash {A B} f (k : A -> M B) st : bind (crash f) k st = Crashed f.
Proof. reflexivity. Qed.

Lemma bind_Ok {A B} (m : M A) (k : A -> M B) st a st' :
  m st = Ok a st' -> bind m k st = k a st'.
Proof. unfold bind. by intros ->. Qed.

Lemma bind_Crashed {A B} (m : M A) (k : A -> M B) st f :
  m st = Crashed f -> bind m k st = Crashed f.
Proof. unfold bind. by intros ->. Qed.

Lemma bind_get {B} (k : State -> M B) st : bind get k st = k st st.
Proof. reflexivity. Qed.

Lemma set_olds_set_olds o o' st : set_olds o (set_olds o' st) = set_olds o st.
Proof. reflexivity. Qed.

Lemma set_olds_olds st : set_olds (olds st) st = st.
Proof. by destruct st. Qed.

Lemma strcmp_eqb s1 s2 st :
  exists z, strcmp (Ptr s1) (Ptr s2) st = Ok z st /\ (z =? 0)%Z = String.eqb s1 s2.
Proof.
  unfold strcmp, ret. eexists; split; [reflexivity|].
  destruct (String.eqb_spec s1 s2) as [->|Hne].
  - assert (String.compare s2 s2 = Eq) as ->; [|done].
    destruct (String.compare s2 s2) eqn:E; [done| |].
    + pose proof (String.compare_antisym s2 s2) as H. rewrite E in H. done.
    + pose proof (String.compare_antisym s2 s2) as H. rewrite E in H. done.
  - destruct (String.compare s1 s2) eqn:E; [|done|done].
    by apply String.compare_eq_iff in E.
Qed.

(** ** Lemmas on the roles of tokens *)

Lemma arguments_op t rest :
  is_op t = true -> arguments (t :: rest) = arguments (tail rest).
Proof. intros H. simpl. rewrite H. by destruct rest. Qed.

Lemma arguments_arg t rest :
  is_op t = false -> arguments (t :: rest) = t :: arguments rest.
Proof. intros H. simpl. by rewrite H. Qed.

Lemma redirections_op t rest :
  is_op t = true ->
  redirections (t :: rest) = (t, head_ptr rest) :: redirections (tail rest).
Proof. intros H. simpl. rewrite H. by destruct rest. Qed.

Lemma redirections_arg t rest :
  is_op t = false -> redirections (t :: rest) = redirections rest.
Proof. intros H. simpl. by rewrite H. Qed.

Lemma paths_op op t rest :
  is_op t = true ->
  paths op (t :: rest) =
  if String.eqb t op then head_ptr rest :: paths op (tail rest)
  else paths op (tail rest).
Proof.
  intros H. unfold paths. rewrite (redirections_op _ _ H).
  rewrite filter_cons. simpl. destruct (String.eqb t op) eqn:E.
  - by rewrite decide_True.
  - by rewrite decide_False.
Qed.

Lemma paths_arg op t rest :
  is_op t = false -> paths op (t :: rest) = paths op rest.
Proof. intros H. unfold paths. by rewrite (redirections_arg _ _ H). Qed.

Lemma default_last_cons {A} (d x : A) l :
  default d (last (x :: l)) = default x (last l).
Proof. rewrite last_cons. by destruct (last l). Qed.

Lemma only_redirections_arguments toks :
  only_redirections toks = true <-> arguments toks = [].
Proof.
  remember (length toks) as n eqn:Hn.
  revert toks Hn. induction n as [n IH] using lt_wf_ind. intros toks ->.
  destruct toks as [|t rest]; [done|].
  simpl. destruct (is_op t) eqn:E; simpl; [|done].
  destruct rest as [|p rest']; [done|].
  eapply IH; [|reflexivity]. simpl. lia.
Qed.

(** ** The loop of parseInput *)

Lemma parse_loop_step fuel t command i st :
  parse_loop (S fuel) (Ptr t) command i st =
  if String.eqb t "<" then
    (token <- strtok NULL DELIM ;;
     token' <- strtok NULL DELIM ;;
     parse_loop fuel token' (set_inputFile token command) i) st
  else if String.eqb t ">" then
    (token <- strtok NULL DELIM ;;
     token' <- strtok NULL DELIM ;;
     parse_loop fuel token' (set_outputFile token command) i) st
  else
    (a <- store (args command) i (Ptr t) ;;
     token <- strtok NULL DELIM ;;
     parse_loop fuel token (set_args a command) (i + 1)) st.
Proof.
  cbn [parse_loop]. unfold bind at 1.
  destruct (strcmp_eqb t "<" st) as (z & -> & ->).
  destruct (String.eqb t "<"); [done|].
  unfold bind at 1.
  destruct (strcmp_eqb t ">" st) as (z' & -> & ->).
  by destruct (String.eqb t ">").
Qed.

(** Two calls of [strtok] in a row take the next two tokens. *)
Lemma strtok_twice {A} (k : cptr -> cptr -> M A) st :
  exists o,
    (token <- strtok NULL DELIM ;; token' <- strtok NULL DELIM ;; k token token') st
    = k (head_ptr (tokens (olds st))) (head_ptr (tail (tokens (olds st))))
        (set_olds o st)
    /\ tokens o = tail (tail (tokens (olds st))).
Proof.
  destruct (strtok_spec NULL st) as (o1 & H1 & T1). simpl in H1, T1.
  destruct (strtok_spec NULL (set_olds o1 st)) as (o2 & H2 & T2). simpl in H2, T2.
  exists o2. unfold bind at 1. rewrite H1. unfold bind at 1. rewrite H2.
  by rewrite T1 in *.
Qed.

Lemma strtok_once {A} (k : cptr -> M A) st :
  exists o,
    (token <- strtok NULL DELIM ;; k token) st
    = k (head_ptr (tokens (olds st))) (set_olds o st)
    /\ tokens o = tail (tokens (olds st)).
Proof.
  destruct (strtok_spec NULL st) as (o1 & H1 & T1). simpl in H1, T1.
  exists o1. unfold bind at 1. by rewrite H1.
Qed.

Lemma loop_result_nil command i :
  i <= length (args command) -> loop_result command i [] = command.
Proof.
  intros Hi. destruct command as [a f g]. unfold loop_result. simpl.
  by rewrite Nat.add_0_r, take_drop.
Qed.

Lemma loop_result_lt command i rest :
  loop_result command i ("<" :: rest)
  = loop_result (set_inputFile (head_ptr rest) command) i (tail rest).
Proof.
  unfold loop_result. rewrite arguments_op, !paths_op by done. simpl.
  by rewrite default_last_cons.
Qed.

Lemma loop_result_gt command i rest :
  loop_result command i (">" :: rest)
  = loop_result (set_outputFile (head_ptr rest) command) i (tail rest).
Proof.
  unfold loop_result. rewrite arguments_op, !paths_op by done. simpl.
  by rewrite default_last_cons.
Qed.

Lemma loop_result_arg command i t rest :
  is_op t = false ->
  i < length (args command) ->
  loop_result command i (t :: rest)
  = loop_result (set_args (<[i := Some (Ptr t)]> (args command)) command) (i + 1) rest.
Proof.
  intros Hop Hi. unfold loop_result.
  rewrite arguments_arg, !paths_arg by done. simpl. f_equal.
  rewrite Nat.add_1_r.
  rewrite (take_S_r _ _ (Some (Ptr t))) by by apply list_lookup_insert_eq.
  rewrite take_insert_ge by lia.
  rewrite drop_insert_lt by lia.
  rewrite <- app_assoc. simpl. do 4 f_equal. lia.
Qed.

Lemma parse_loop_spec fuel : forall rem command i st,
  tokens (olds st) = tail rem ->
  length rem <= fuel ->
  i <= length (args command) ->
  if decide (i + length (arguments rem) <= length (args command))
  then exists o,
      parse_loop fuel (head_ptr rem) command i st
      = Ok (loop_result command i rem, i + length (arguments rem)) (set_olds o st)
  else parse_loop fuel (head_ptr rem) command i st
       = Crashed (OutOfBounds (length (args command))).
Proof.
  induction fuel as [|fuel IH]; intros rem command i st Hold Hlen Hi.
  - destruct rem; [|simpl in Hlen; lia]. simpl.
    rewrite decide_True by lia. exists (olds st).
    by rewrite loop_result_nil, Nat.add_0_r, set_olds_olds.
  - destruct rem as [|t rest].
    { simpl. rewrite decide_True by lia. exists (olds st).
      by rewrite loop_result_nil, Nat.add_0_r, set_olds_olds. }
    simpl in Hold, Hlen. change (head_ptr (t :: rest)) with (Ptr t).
    rewrite parse_loop_step.
    destruct (String.eqb t "<") eqn:E1; [|destruct (String.eqb t ">") eqn:E2].
    + apply String.eqb_eq in E1 as ->.
      destruct (strtok_twice
        (fun token token' => parse_loop fuel token' (set_inputFile token command) i) st)
        as (o & -> & To).
      rewrite Hold in *.
      rewrite arguments_op, loop_result_lt by done.
      specialize (IH (tail rest) (set_inputFile (head_ptr rest) command) i
                    (set_olds o st) To).
      simpl args in IH.
      destruct (decide (i + length (arguments (tail rest)) <= length (args command))).
      * destruct IH as (o' & ->); [destruct rest; simpl in *; lia|done|].
        by exists o'.
      * rewrite IH; [done|destruct rest; simpl in *; lia|done].
    + apply String.eqb_eq in E2 as ->.
      destruct (strtok_twice
        (fun token token' => parse_loop fuel token' (set_outputFile token command) i) st)
        as (o & -> & To).
      rewrite Hold in *.
      rewrite arguments_op, loop_result_gt by done.
      specialize (IH (tail rest) (set_outputFile (head_ptr rest) command) i
                    (set_olds o st) To).
      simpl args in IH.
      destruct (decide (i + length (arguments (tail rest)) <= length (args command))).
      * destruct IH as (o' & ->); [destruct rest; simpl in *; lia|done|].
        by exists o'.
      * rewrite IH; [done|destruct rest; simpl in *; lia|done].
    + assert (is_op t = false) as Hop by (unfold is_op; by rewrite E1, E2).
      rewrite arguments_arg by done.
      unfold store.
      destruct (decide (i < length (args command))) as [Hlt|Hge].
      * rewrite bind_ret, loop_result_arg by done.
        destruct (strtok_once
          (fun token => parse_loop fuel token
             (set_args (<[i := Some (Ptr t)]> (args command)) command) (i + 1)) st)
          as (o & -> & To).
        rewrite Hold in *.
        specialize (IH rest (set_args (<[i := Some (Ptr t)]> (args command)) command)
                      (i + 1) (set_olds o st) To).
        simpl args in IH. rewrite length_insert in IH. simpl length.
        destruct (decide (i + S (length (arguments rest)) <= length (args command)));
          destruct (decide (i + 1 + length (arguments rest) <= length (args command)));
          try lia.
        -- destruct IH as (o' & ->); [lia|lia|].
           exists o'. rewrite set_olds_set_olds.
           by replace (i + 1 + length (arguments rest))
             with (i + S (length (arguments rest))) by lia.
        -- rewrite IH; [done|lia|lia].
      * simpl length. rewrite decide_False by lia.
        rewrite bind_crash. do 2 f_equal. lia.
Qed.

(** ** What parseInput computes *)

Lemma args_of_insert l :
  length l < MAX_ARGS ->
  <[length l := Some NULL]>
    (take 0 (replicate MAX_ARGS None) ++ (Some <$> (Ptr <$> l))
       ++ drop (0 + length l) (replicate MAX_ARGS (@None cptr)))
  = args_of l.
Proof.
  intros Hl. unfold args_of. rewrite take_0, drop_replicate. simpl.
  rewrite insert_app_r_alt by (rewrite !length_fmap; lia).
  rewrite !length_fmap, Nat.sub_diag.
  replace (MAX_ARGS - length l) with (S (MAX_ARGS - S (length l))) by lia.
  reflexivity.
Qed.

(** The parser either stores past the end of [args], when the line has
    [MAX_ARGS] arguments or more, or returns the command of its tokens.
    In particular its fuel never runs out. *)
Lemma parseInput_spec line st :
  if decide (length (arguments (tokens line)) < MAX_ARGS)
  then exists o, parseInput line st = Ok (command_of (tokens line)) (set_olds o st)
  else parseInput line st = Crashed (OutOfBounds MAX_ARGS).
Proof.
  unfold parseInput.
  destruct (strtok_spec (Ptr line) st) as (o & Htok & To).
  rewrite (bind_Ok _ _ _ _ _ Htok).
  pose proof (parse_loop_spec (String.length line) (tokens line)
    {| args := replicate MAX_ARGS None; inputFile := NULL; outputFile := NULL |}
    0 (set_olds o st) To (tokens_length line) (Nat.le_0_l _)) as Hloop.
  cbn [args] in Hloop. rewrite length_replicate in Hloop.
  set (n := length (arguments (tokens line))) in *.
  destruct (decide (0 + n <= MAX_ARGS)) as [Hle|Hgt].
  - destruct Hloop as (o' & Hloop). rewrite (bind_Ok _ _ _ _ _ Hloop).
    unfold store. cbn [args loop_result].
    rewrite !length_app, length_take, !length_fmap, length_drop, length_replicate.
    fold n.
    destruct (decide (n < MAX_ARGS)) as [Hlt|Hge].
    + rewrite decide_True by lia. rewrite bind_ret. exists o'.
      unfold ret, set_args, command_of. cbn [args inputFile outputFile loop_result].
      rewrite set_olds_set_olds. f_equal. f_equal.
      apply (args_of_insert (arguments (tokens line)) Hlt).
    + rewrite decide_False by lia. rewrite bind_crash.
      do 2 f_equal. lia.
  - rewrite decide_False by lia. by rewrite (bind_Crashed _ _ _ _ Hloop).
Qed.

Lemma argv_upto_null_args_of l : argv_upto_null (args_of l) = l.
Proof.
  unfold args_of. generalize (replicate (MAX_ARGS - S (length l)) (@None cptr)).
  intros r. induction l as [|x l IH]; simpl; [done|]. f_equal. apply IH.
Qed.

Lemma argv_command_of toks : argv (command_of toks) = arguments toks.
Proof. apply argv_upto_null_args_of. Qed.

Lemma length_args_of l : length l < MAX_ARGS -> length (args_of l) = MAX_ARGS.
Proof.
  intros H. unfold args_of.
  rewrite length_app, !length_fmap, length_cons, length_replicate. lia.
Qed.

(** The parser returns a command exactly for the lines with fewer than
    [MAX_ARGS] arguments. *)
Lemma parseInput_returns line st :
  length (arguments (tokens line)) < MAX_ARGS <->
  exists command st', parseInput line st = Ok command st'.
Proof.
  pose proof (parseInput_spec line st) as H.
  destruct (decide (length (arguments (tokens line)) < MAX_ARGS)) as [Hlt|Hge].
  - destruct H as (o & H). split; [eauto|done].
  - split; [done|]. intros (c & st' & Hc). by rewrite H in Hc.
Qed.

Lemma parseInput_Ok line st command st' :
  parseInput line st = Ok command st' ->
  command = command_of (tokens line)
  /\ length (arguments (tokens line)) < MAX_ARGS
  /\ exists o, st' = set_olds o st.
Proof.
  intros Hc. pose proof (parseInput_spec line st) as H.
  destruct (decide (length (arguments (tokens line)) < MAX_ARGS)) as [Hlt|Hge].
  - destruct H as (o & H). rewrite H in Hc. injection Hc as <- <-. eauto.
  - by rewrite H in Hc.
Qed.

(** ** Lemmas on the array of a parsed command *)

Lemma args_of_lookup_0 l : args_of l !! 0 = Some (Some (head_ptr l)).
Proof. by destruct l. Qed.

Lemma args_of_lookup_1 t l : args_of (t :: l) !! 1 = Some (Some (head_ptr l)).
Proof. by destruct l. Qed.

Lemma read_argv_args_of l i st :
  read_argv ((Some <$> (Ptr <$> l)) ++ Some NULL :: replicate (MAX_ARGS - S i) None)
    (i - length l) st = Ok l st.
Proof.
  generalize (replicate (MAX_ARGS - S i) (@None cptr)) as r.
  generalize (i - length l) as j.
  induction l as [|x l IH]; intros j r; [done|].
  cbn [fmap list_fmap app read_argv].
  by rewrite (bind_Ok _ _ _ _ _ (IH (S j) r)).
Qed.

Section Executor.

Context (K : Kernel).

(** ** The built-in [cd] *)

Lemma executeCommand_cd command st :
  args command !! 0 = Some (Some (Ptr "cd")) ->
  executeCommand K command st =
  (a1 <- load (args command) 1 ;;
   match a1 with
   | NULL => fputs Parent STDERR_FILENO ("cd: missing argument" ++ NL)
   | Ptr _ =>
       r <- chdir K a1 ;;
       if negb (r =? 0)%Z then print_error K Parent else ret tt
   end) st.
Proof. intros H0. unfold executeCommand, load. by rewrite H0. Qed.

(** C2.  A [cd] command with no second argument writes the line
    [cd: missing argument] on standard error and does nothing else: the
    working directory stays as it was and the interpreter goes on. *)
Theorem cd_missing_argument (command : ShellCommand) (st : State) :
  args command !! 0 = Some (Some (Ptr "cd")) ->
  args command !! 1 = Some (Some NULL) ->
  exists st',
    executeCommand K command st = Ok tt st'
    /\ trace st' = trace st ++ [(Parent, SysWrite STDERR_FILENO ("cd: missing argument" ++ NL))]
    /\ cwd st' = cwd st.
Proof.
  intros H0 H1. rewrite (executeCommand_cd _ _ H0). unfold load. rewrite H1.
  eexists. split; [reflexivity|]. split; reflexivity.
Qed.

(** C3.  A [cd] command whose directory change fails with error number
    [code] prints [Error <code> (<description>)], the number in decimal
    and the description that [strerror] gives for it; the working
    directory stays as it was and the interpreter goes on. *)
Theorem cd_failure_reported (command : ShellCommand) (st : State) (path : string) (code : Z) :
  args command !! 0 = Some (Some (Ptr "cd")) ->
  args command !! 1 = Some (Some (Ptr path)) ->
  sys_chdir K st path = inr code ->
  exists st',
    executeCommand K command st = Ok tt st'
    /\ trace st' = trace st ++
         [(Parent, SysChdir path (inr code));
          (Parent, SysWrite STDOUT_FILENO
             ("Error " ++ fmt_d code ++ " (" ++ strerror K code ++ ")" ++ NL))]
    /\ cwd st' = cwd st.
Proof.
  intros H0 H1 Hfail. rewrite (executeCommand_cd _ _ H0). unfold load. rewrite H1.
  rewrite bind_ret. unfold chdir, bind, get. rewrite Hfail.
  eexists. split; [reflexivity|]. split; [|reflexivity].
  cbn [trace emit set_errno errno]. by rewrite <- app_assoc.
Qed.

(** ** Commands without arguments *)

Lemma executeCommand_empty command st :
  args command !! 0 = Some (Some NULL) ->
  executeCommand K command st = Ok tt st.
Proof. intros H0. unfold executeCommand, load. by rewrite H0. Qed.

Lemma displayPrompt_Ok st :
  exists st', displayPrompt K st = Ok tt st'
              /\ cwd st' = cwd st /\ stdin st' = stdin st.
Proof.
  unfold displayPrompt, getcwd, bind, get.
  destruct (sys_getcwd K st); eexists; (split; [reflexivity|done]).
Qed.

End Executor.

(** * The properties of the parser *)

(** A tab is not a delimiter of the tokenizer: it stays in the token. *)
Example tab_is_not_a_delimiter :
  tokens (String "009" NL) = [String "009" EmptyString]
  /\ blank (String "009" NL) = false.
Proof. split; reflexivity. Qed.

(** A token that follows an operator is its path, whatever it is: the
    second [<] of [cat < <] is the file to read from, not an operator. *)
Example operator_taken_as_path :
  redirections (tokens ("cat < <" ++ NL)) = [("<", Ptr "<")]
  /\ parseInput ("cat < <" ++ NL) (initial_state "")
     = Ok (command_of ["cat"; "<"; "<"]) (initial_state "")
  /\ argv (command_of ["cat"; "<"; "<"]) = ["cat"]
  /\ inputFile (command_of ["cat"; "<"; "<"]) = Ptr "<".
Proof. repeat split; vm_compute; reflexivity. Qed.

(** [%d] prints an [int] in decimal. *)
Example fmt_d_decimal :
  fmt_d 0 = "0" /\ fmt_d 2 = "2" /\ fmt_d 13 = "13" /\ fmt_d (-1) = "-1".
Proof. repeat split; reflexivity. Qed.

(** With [MAX_ARGS] arguments or more the parser stores outside [args]. *)
Lemma parseInput_overflow line st :
  MAX_ARGS <= length (arguments (tokens line)) ->
  parseInput line st = Crashed (OutOfBounds MAX_ARGS).
Proof.
  intros H. pose proof (parseInput_spec line st) as Hs.
  by rewrite decide_False in Hs by lia.
Qed.

(** Within the capacity of [args] the parser does what the
    specification says: the arguments are the tokens that are neither an
    operator nor the path of one, in order, and each redirection field
    holds what followed the last occurrence of its operator. *)
Lemma parseInput_in_bounds line st :
  length (arguments (tokens line)) < MAX_ARGS ->
  exists command o,
    parseInput line st = Ok command (set_olds o st)
    /\ argv command = arguments (tokens line)
    /\ args command !! length (arguments (tokens line)) = Some (Some NULL)
    /\ length (args command) = MAX_ARGS
    /\ inputFile command = default NULL (last (paths "<" (tokens line)))
    /\ outputFile command = default NULL (last (paths ">" (tokens line))).
Proof.
  intros H. pose proof (parseInput_spec line st) as Hs.
  rewrite decide_True in Hs by done. destruct Hs as (o & Hs).
  exists (command_of (tokens line)), o. split; [done|].
  split; [apply argv_command_of|]. split; [|split; [by apply length_args_of|done]].
  cbn [command_of args]. unfold args_of.
  rewrite lookup_app_r by (rewrite !length_fmap; lia).
  by rewrite !length_fmap, Nat.sub_diag.
Qed.

(** C9.  On the line of [MAX_ARGS] one-letter words the parser fills
    [args[0]] to [args[MAX_ARGS - 1]] and then stores the terminating
    null at index [MAX_ARGS], outside the array. *)
Theorem parseInput_hundred_words_out_of_bounds :
  forall st, parseInput hundred_words st = Crashed (OutOfBounds MAX_ARGS).
Proof. intros st. vm_compute. reflexivity. Qed.

(** C5, as the code has it.  The arguments of the parsed command are
    empty exactly when every token of the line is a redirection operator
    or the path of one; a blank line is such a line.  So a command has
    an argument as soon as its line has a token that is neither. *)
Theorem arguments_empty_iff_only_redirections
    (line : string) (st : State) (command : ShellCommand) (st' : State) :
  parseInput line st = Ok command st' ->
  (argv command = [] <-> only_redirections (tokens line) = true)
  /\ (blank line = true -> argv command = []).
Proof.
  intros H. apply parseInput_Ok in H as (-> & _ & _).
  rewrite argv_command_of, only_redirections_arguments. split; [done|].
  intros Hb. apply blank_tokens in Hb. by rewrite Hb.
Qed.

Lemma arguments_empty_iff_only_redirections_witness :
  parseInput ("> out.txt" ++ NL) (initial_state "") =
    Ok (command_of [">"; "out.txt"]) (initial_state "")
  /\ ((argv (command_of [">"; "out.txt"]) = []
       <-> only_redirections (tokens ("> out.txt" ++ NL)) = true)
      /\ (blank ("> out.txt" ++ NL) = true -> argv (command_of [">"; "out.txt"]) = [])).
Proof.
  assert (parseInput ("> out.txt" ++ NL) (initial_state "") =
          Ok (command_of [">"; "out.txt"]) (initial_state "")) as H
    by (vm_compute; reflexivity).
  split; [exact H|].
  exact (arguments_empty_iff_only_redirections _ _ _ _ H).
Defined.

(** C5 as stated fails: the line [> out.txt] is not blank, and the
    command parsed from it has no arguments. *)
Lemma nonblank_line_without_arguments :
  exists command st',
    parseInput ("> out.txt" ++ NL) (initial_state "") = Ok command st'
    /\ blank ("> out.txt" ++ NL) = false
    /\ argv command = [].
Proof. eexists _, _. split; [vm_compute; reflexivity|]. split; reflexivity. Qed.



(** * The properties of the loop and of execution *)

Section Shell.

Context (K : Kernel).

Lemma getInput_line st line rest :
  sys_malloc K st = None ->
  read_line (MAX_INPUT - 1) (stdin st) = (line, rest) ->
  line <> EmptyString ->
  getInput K st = Ok (Ptr (cstring line)) (set_stdin rest st).
Proof.
  intros Hm Hr Hne. unfold getInput, malloc, fgets, bind, get. rewrite Hm.
  cbn [ret negb]. rewrite Hr. by destruct line.
Qed.

(** C4.  A turn of the loop that reads a blank line shows the prompt,
    takes the line from standard input and goes round again: nothing is
    added to the trace after the prompt (no [chdir], no [fork], no
    [open]), the working directory stays as it was, and the next turn
    starts by showing the prompt. *)
Theorem blank_line_runs_nothing (st st1 : State) (line rest : string) :
  displayPrompt K st = Ok tt st1 ->
  sys_malloc K st1 = None ->
  read_line (MAX_INPUT - 1) (stdin st) = (line, rest) ->
  line <> EmptyString ->
  blank line = true ->
  exists st',
    loop_body K st = Ok true st'
    /\ trace st' = trace st1
    /\ cwd st' = cwd st
    /\ stdin st' = rest
    /\ forall fuel, main_loop K (S fuel) st = main_loop K fuel st'.
Proof.
  intros Hprompt Hm Hr Hne Hb.
  destruct (displayPrompt_Ok K st) as (st1' & Hp & Hcwd & Hstdin).
  rewrite Hprompt in Hp. injection Hp as <-.
  rewrite <- Hstdin in Hr.
  assert (exists o, loop_body K st = Ok true (set_olds o (set_stdin rest st1)))
    as (o & Hbody).
  { unfold loop_body.
    rewrite (bind_Ok _ _ _ _ _ Hprompt).
    rewrite (bind_Ok _ _ _ _ _ (getInput_line _ _ _ Hm Hr Hne)).
    rewrite (cstring_id line (blank_has_nul line Hb)).
    destruct (strcmp_eqb line NL (set_stdin rest st1)) as (z & Hz & Hzb).
    rewrite (bind_Ok _ _ _ _ _ Hz), Hzb.
    destruct (String.eqb line NL).
    - exists (olds st1). by destruct st1.
    - pose proof (parseInput_spec line (set_stdin rest st1)) as Hs.
      apply blank_tokens in Hb. rewrite Hb in Hs.
      rewrite decide_True in Hs by (unfold MAX_ARGS; simpl; lia).
      destruct Hs as (o & Hs). exists o.
      rewrite (bind_Ok _ _ _ _ _ Hs).
      by rewrite (bind_Ok _ _ _ _ _
        (executeCommand_empty K (command_of []) _ (args_of_lookup_0 []))). }
  eexists. split; [exact Hbody|]. split; [done|]. split; [done|]. split; [done|].
  intros fuel. cbn [main_loop]. by rewrite (bind_Ok _ _ _ _ _ Hbody).
Qed.

(** C10.  A line made only of redirection operators and their paths
    parses to a command without arguments, and executing that command
    changes nothing: no event is added to the trace, so no process is
    created and no file is opened, created or truncated. *)
Theorem only_redirections_runs_nothing (line : string) (st : State) :
  only_redirections (tokens line) = true ->
  exists command o,
    parseInput line st = Ok command (set_olds o st)
    /\ argv command = []
    /\ forall st2, executeCommand K command st2 = Ok tt st2.
Proof.
  intros H. apply only_redirections_arguments in H.
  pose proof (parseInput_spec line st) as Hs. rewrite H in Hs.
  rewrite decide_True in Hs by (unfold MAX_ARGS; simpl; lia).
  destruct Hs as (o & Hs). exists (command_of (tokens line)), o.
  split; [done|]. split; [by rewrite argv_command_of|].
  intros st2. apply executeCommand_empty.
  cbn [command_of args]. rewrite H. apply args_of_lookup_0.
Qed.

End Shell.

(** ** What execution leaves alone *)

Section Keeps.

Context (K : Kernel) {B : Type} (obs : State -> B) (quiet : event -> Prop).

(** The observation depends on the trace only through the events that
    are not [quiet], and not on [errno] or the working directory. *)
Hypothesis obs_emit : forall e st, quiet e -> obs (emit e st) = obs st.
Hypothesis obs_set_errno : forall e st, obs (set_errno e st) = obs st.
Hypothesis obs_set_cwd : forall d st, obs (set_cwd d st) = obs st.
Hypothesis obs_set_trace :
  forall st st', obs st' = obs st -> obs (set_trace (trace st') st) = obs st.
Hypothesis quiet_not_open :
  forall who s, (forall p fl mode r, s <> SysOpen p fl mode r) -> quiet (who, s).

Lemma keeps_ret {A} (a : A) : keeps obs (ret a).
Proof. intros st. by exists st. Qed.

Lemma keeps_bind {A C} (m : M A) (k : A -> M C) :
  keeps obs m -> (forall a, keeps obs (k a)) -> keeps obs (bind m k).
Proof.
  intros Hm Hk st. unfold bind.
  destruct (Hm st) as (st1 & H1 & E1).
  destruct (m st) as [a s|n s|s|f]; simpl in H1; try discriminate;
    injection H1 as ->.
  - destruct (Hk a st1) as (st2 & H2 & E2). exists st2. split; [done|congruence].
  - by exists st1.
  - by exists st1.
Qed.

Lemma keeps_get : keeps obs get.
Proof. intros st. by exists st. Qed.

Lemma keeps_exit {A} n : keeps obs (@exit A n).
Proof. intros st. by exists st. Qed.

Lemma keeps_modify f :
  (forall st, obs (f st) = obs st) -> keeps obs (modify f).
Proof. intros H st. exists (f st). split; [done|apply H]. Qed.

Lemma keeps_emit e : quiet e -> keeps obs (modify (emit e)).
Proof. intros H. apply keeps_modify. intros st. by apply obs_emit. Qed.

Lemma keeps_call who s :
  (forall p fl mode r, s <> SysOpen p fl mode r) -> keeps obs (modify (emit (who, s))).
Proof. intros H. by apply keeps_emit, quiet_not_open. Qed.

Lemma keeps_set_errno e : keeps obs (modify (set_errno e)).
Proof. by apply keeps_modify. Qed.

Lemma keeps_strcmp s1 s2 : keeps obs (strcmp (Ptr s1) (Ptr s2)).
Proof. apply keeps_ret. Qed.

Lemma keeps_fputs who fd text : keeps obs (fputs who fd text).
Proof. by apply keeps_call. Qed.

Lemma keeps_print_error who : keeps obs (print_error K who).
Proof. apply keeps_bind; [apply keeps_get|]. intros st. apply keeps_fputs. Qed.

Lemma keeps_perror who s : keeps obs (perror K who s).
Proof. apply keeps_bind; [apply keeps_get|]. intros st. apply keeps_fputs. Qed.

Lemma keeps_exit_process who n : keeps obs (exit_process who n).
Proof.
  apply keeps_bind; [by apply keeps_call|]. intros _. apply keeps_exit.
Qed.

Lemma keeps_chdir p : keeps obs (chdir K (Ptr p)).
Proof.
  apply keeps_bind; [apply keeps_get|]. intros st.
  apply keeps_bind; [by apply keeps_call|]. intros _.
  destruct (sys_chdir K st p).
  - apply keeps_bind; [by apply keeps_modify|]. intros _. apply keeps_ret.
  - apply keeps_bind; [apply keeps_set_errno|]. intros _. apply keeps_ret.
Qed.

Lemma keeps_open who p fl mode :
  (forall r, quiet (who, SysOpen p fl mode r)) ->
  keeps obs (open K who (Ptr p) fl mode).
Proof.
  intros Hq.
  apply keeps_bind; [apply keeps_get|]. intros st.
  apply keeps_bind; [by apply keeps_emit|].
  intros _. destruct (sys_open K st p fl mode).
  - apply keeps_ret.
  - apply keeps_bind; [apply keeps_set_errno|]. intros _. apply keeps_ret.
Qed.

Lemma keeps_execvp who f l :
  keeps obs (execvp K who (Ptr f) (args_of l)).
Proof.
  unfold execvp. intros st.
  pose proof (read_argv_args_of l (length l) st) as Hr.
  rewrite Nat.sub_diag in Hr. fold (args_of l) in Hr.
  rewrite (bind_Ok _ _ _ _ _ Hr). clear Hr. revert st.
  apply keeps_bind; [apply keeps_get|]. intros st.
  apply keeps_bind; [by apply keeps_call|]. intros _.
  destruct (sys_execvp K st f l).
  - apply keeps_bind; [apply keeps_set_errno|]. intros _. apply keeps_ret.
  - intros s. by exists s.
Qed.

(** The redirection a process sets up for the file [path]. *)
Lemma keeps_redirect who path fl mode target :
  path = NULL \/ (forall p r, quiet (who, SysOpen p fl mode r)) ->
  keeps obs
    (match path with
     | NULL => ret tt
     | Ptr _ =>
         fd <- open K who path fl mode ;;
         (if (fd <? 0)%Z then print_error K who ;;; exit_process who 1 else ret tt) ;;;
         dup2 who fd target ;;;
         close who fd
     end).
Proof.
  intros [->|Hq]; [apply keeps_ret|].
  destruct path as [|p]; [apply keeps_ret|].
  apply keeps_bind; [by apply keeps_open|]. intros fd.
  apply keeps_bind.
  { destruct (fd <? 0)%Z; [|apply keeps_ret].
    apply keeps_bind; [apply keeps_print_error|]. intros _.
    apply keeps_exit_process. }
  intros _. apply keeps_bind; [by apply keeps_call|]. intros _.
  by apply keeps_call.
Qed.

Lemma keeps_after_fork who l inp out pid :
  l <> [] ->
  inp = NULL \/ (forall p r, quiet (who, SysOpen p [O_RDONLY] None r)) ->
  out = NULL \/
    (forall p r, quiet (who, SysOpen p [O_WRONLY; O_CREAT; O_TRUNC] (Some 420%Z) r)) ->
  keeps obs
    (after_fork K who {| args := args_of l; inputFile := inp; outputFile := out |} pid).
Proof.
  intros Hl Hin Hout. unfold after_fork. cbn [args inputFile outputFile].
  destruct (pid <? 0)%Z; [apply keeps_perror|].
  destruct (pid =? 0)%Z; [|by apply keeps_call].
  apply keeps_bind; [by apply keeps_redirect|]. intros _.
  apply keeps_bind; [by apply keeps_redirect|]. intros _.
  destruct l as [|a l]; [done|].
  unfold load. rewrite args_of_lookup_0. cbn [head_ptr].
  intros st. rewrite bind_ret. revert st.
  apply keeps_bind; [apply keeps_execvp|]. intros _.
  apply keeps_bind; [apply keeps_print_error|]. intros _.
  apply keeps_exit_process.
Qed.

Lemma keeps_fork_and (body : process -> Z -> M unit) :
  (forall who pid, keeps obs (body who pid)) ->
  keeps obs (fork_and K body).
Proof.
  intros Hbody. unfold fork_and.
  apply keeps_bind; [apply keeps_get|]. intros st.
  apply keeps_bind; [by apply keeps_call|]. intros _.
  destruct (sys_fork K st) as [pid|e].
  - apply keeps_bind; [|intros _; apply Hbody].
    intros s. destruct (Hbody Child 0%Z s) as (s' & Hs' & Es').
    destruct (body Child 0%Z s) as [a s1|n s1|s1|f]; simpl in Hs'; try discriminate;
      injection Hs' as ->; eexists; (split; [reflexivity|by apply obs_set_trace]).
  - apply keeps_bind; [apply keeps_set_errno|]. intros _. apply Hbody.
Qed.

(** Executing a parsed command never crashes, and what it does beyond
    the quiet events is to open the files of the redirection fields
    that are set. *)
Lemma keeps_executeCommand toks :
  inputFile (command_of toks) = NULL \/
    (forall who p r, quiet (who, SysOpen p [O_RDONLY] None r)) ->
  outputFile (command_of toks) = NULL \/
    (forall who p r,
       quiet (who, SysOpen p [O_WRONLY; O_CREAT; O_TRUNC] (Some 420%Z) r)) ->
  keeps obs (executeCommand K (command_of toks)).
Proof.
  intros Hin Hout. unfold executeCommand, command_of in *.
  cbn [args inputFile outputFile] in *.
  unfold load at 1. rewrite args_of_lookup_0.
  destruct (arguments toks) as [|a l] eqn:Hargs.
  { intros st. rewrite bind_ret. by exists st. }
  cbn [head_ptr]. intros st. rewrite bind_ret. revert st.
  apply keeps_bind; [apply keeps_strcmp|]. intros z.
  destruct (z =? 0)%Z; [apply keeps_exit_process|].
  apply keeps_bind; [apply keeps_strcmp|]. intros z'.
  destruct (z' =? 0)%Z.
  - unfold load. rewrite args_of_lookup_1.
    intros st. rewrite bind_ret. revert st.
    destruct (head_ptr l) as [|p]; [apply keeps_fputs|].
    apply keeps_bind; [apply keeps_chdir|]. intros r.
    destruct (negb (r =? 0)%Z); [apply keeps_print_error|apply keeps_ret].
  - apply keeps_fork_and. intros who pid. apply keeps_after_fork; [done| |].
    + destruct Hin as [Hin|Hin]; [by left|right; intros; apply Hin].
    + destruct Hout as [Hout|Hout]; [by left|right; intros; apply Hout].
Qed.

End Keeps.

(** ** Which files execution opens *)

Lemma opens_emit flags e st :
  is_open_with flags e = false -> opens flags (emit e st) = opens flags st.
Proof.
  intros H. unfold opens, emit. cbn [trace].
  rewrite List.filter_app. cbn [List.filter]. by rewrite H, app_nil_r.
Qed.

Lemma is_open_with_other flags who s :
  (forall p fl mode r, s <> SysOpen p fl mode r) ->
  is_open_with flags (who, s) = false.
Proof. intros H. destruct s; try done. by destruct (H path flags0 mode r). Qed.

Lemma is_open_with_ne flags who p fl mode r :
  fl <> flags -> is_open_with flags (who, SysOpen p fl mode r) = false.
Proof. intros H. cbn [is_open_with]. by apply bool_decide_eq_false. Qed.

(** Executing a parsed command makes no call of [open] with [flags]
    when the redirection field that goes with these flags is null. *)
Lemma executeCommand_opens K flags toks :
  inputFile (command_of toks) = NULL \/ [O_RDONLY] <> flags ->
  outputFile (command_of toks) = NULL \/ [O_WRONLY; O_CREAT; O_TRUNC] <> flags ->
  keeps (opens flags) (executeCommand K (command_of toks)).
Proof.
  intros Hin Hout.
  apply (keeps_executeCommand K (opens flags)
           (fun e => is_open_with flags e = false)).
  - intros e st. apply opens_emit.
  - done.
  - done.
  - intros st st' H. exact H.
  - intros who s. apply is_open_with_other.
  - destruct Hin as [Hin|Hin]; [by left|right; intros; by apply is_open_with_ne].
  - destruct Hout as [Hout|Hout]; [by left|right; intros; by apply is_open_with_ne].
Qed.

(** Executing a parsed command reads nothing from the standard input of
    the interpreter. *)
Lemma executeCommand_stdin K toks :
  keeps stdin (executeCommand K (command_of toks)).
Proof.
  apply (keeps_executeCommand K stdin (fun _ => True)); try done; by right.
Qed.

(** ** The fuel of the main loop *)

Lemma read_line_length n s l rest :
  read_line n s = (l, rest) ->
  String.length s = String.length l + String.length rest.
Proof.
  revert s l rest. induction n as [|n IH]; intros s l rest.
  - simpl. by intros [= <- <-].
  - destruct s as [|c s]; [by intros [= <- <-]|].
    cbn [read_line]. destruct (Ascii.eqb c "010").
    + by intros [= <- <-].
    + destruct (read_line n s) as [l' rest'] eqn:E. intros [= <- <-].
      simpl. by rewrite (IH s l' rest' E).
Qed.

Lemma read_line_shorter n s l rest :
  read_line n s = (l, rest) ->
  l <> EmptyString ->
  String.length rest < String.length s.
Proof.
  intros H Hne. rewrite (read_line_length _ _ _ _ H).
  destruct l; [done|]. simpl. lia.
Qed.

(** A turn of the loop that goes round again has taken bytes from
    standard input; a turn that crashes has stored outside [args]. *)
Lemma loop_body_progress K st :
  match loop_body K st with
  | Ok true st' => String.length (stdin st') < String.length (stdin st)
  | Crashed f => f = OutOfBounds MAX_ARGS
  | _ => True
  end.
Proof.
  unfold loop_body.
  destruct (displayPrompt_Ok K st) as (st1 & Hp & _ & Hstdin).
  rewrite (bind_Ok _ _ _ _ _ Hp). rewrite <- Hstdin. clear Hp Hstdin st.
  unfold getInput, malloc.
  unfold bind at 1. unfold bind at 1. unfold bind at 1. unfold get.
  destruct (sys_malloc K st1); [done|].
  cbn [ret negb]. unfold fgets, bind at 1, get.
  destruct (read_line (MAX_INPUT - 1) (stdin st1)) as [l rest] eqn:Hr.
  destruct l as [|c l]; [done|].
  pose proof (read_line_shorter _ _ _ _ Hr) as Hlen.
  cbn [bind modify ret]. generalize (cstring (String c l)) as line. intros line.
  destruct (strcmp_eqb line NL (set_stdin rest st1)) as (z & Hz & Hzb).
  rewrite (bind_Ok _ _ _ _ _ Hz), Hzb.
  destruct (String.eqb line NL); [by apply Hlen|].
  pose proof (parseInput_spec line (set_stdin rest st1)) as Hs.
  destruct (decide (length (arguments (tokens line)) < MAX_ARGS)).
  - destruct Hs as (o & Hs). rewrite (bind_Ok _ _ _ _ _ Hs).
    destruct (executeCommand_stdin K (tokens line)
                (set_olds o (set_stdin rest st1))) as (st' & Hf & Hst).
    unfold bind.
    destruct (executeCommand K (command_of (tokens line))
                (set_olds o (set_stdin rest st1))) as [[] s|n s|s|f];
      simpl in Hf; try done.
    injection Hf as ->. cbn [ret]. rewrite Hst. by apply Hlen.
  - by rewrite (bind_Crashed _ _ _ _ Hs).
Qed.

Lemma main_loop_fuel K fuel : forall st,
  String.length (stdin st) < fuel ->
  main_loop K fuel st <> Crashed OutOfFuel.
Proof.
  induction fuel as [|fuel IH]; intros st Hlen; [lia|].
  cbn [main_loop]. unfold bind at 1.
  pose proof (loop_body_progress K st) as Hb.
  destruct (loop_body K st) as [[] st'|n st'|st'|f]; try done.
  - apply IH. lia.
  - by rewrite Hb.
Qed.

(** The interpreter ends, by [exit], at the end of its input or in a
    crash of the parser: the fuel given to its loop is never used up. *)
Lemma main_fuel K st : main K st <> Crashed OutOfFuel.
Proof.
  unfold main. rewrite bind_get.
  pose proof (main_loop_fuel K (S (String.length (stdin st))) st (Nat.lt_succ_diag_r _)).
  unfold bind.
  destruct (main_loop K (S (String.length (stdin st))) st) as [a s|n s|s|f];
    try done.
  intros [= ->]. by apply H.
Qed.

(** ** A line that ends with an operator *)

Lemma paths_last_redirection op p toks :
  last (redirections toks) = Some (op, p) -> last (paths op toks) = Some p.
Proof.
  intros H. apply last_Some in H as (l & H). unfold paths. rewrite H.
  rewrite filter_app, fmap_app, filter_cons, decide_True by apply String.eqb_refl.
  rewrite filter_nil. cbn [fmap list_fmap snd]. by rewrite last_snoc.
Qed.

Lemma is_op_cases op : is_op op = true -> op = "<" \/ op = ">".
Proof.
  unfold is_op. rewrite orb_true_iff, !String.eqb_eq. tauto.
Qed.

(** A last token [<] or [>] is the last operator of the line with
    nothing after it, unless the operator before it took it as its
    path. *)
Lemma last_token_operator toks op :
  last toks = Some op ->
  is_op op = true ->
  last (redirections toks) = Some (op, NULL)
  \/ exists op', last (redirections toks) = Some (op', Ptr op).
Proof.
  remember (length toks) as n eqn:Hn.
  revert toks Hn. induction n as [n IH] using lt_wf_ind. intros toks -> Hlast Hop.
  destruct toks as [|t rest]; [done|].
  destruct (is_op t) eqn:Ht.
  - rewrite (redirections_op _ _ Ht).
    destruct rest as [|p rest'].
    + injection Hlast as ->. by left.
    + destruct rest' as [|q rest''].
      * injection Hlast as ->. right. by exists t.
      * rewrite !last_cons_cons in Hlast.
        destruct (IH (length (q :: rest'')) ltac:(simpl; lia) (q :: rest'')
                    eq_refl Hlast Hop) as [H|(op' & H)];
          cbn [tail]; rewrite last_cons, H; eauto.
  - rewrite (redirections_arg _ _ Ht).
    destruct rest as [|p rest'].
    + injection Hlast as ->. congruence.
    + rewrite last_cons_cons in Hlast.
      exact (IH (length (p :: rest')) ltac:(simpl; lia) (p :: rest') eq_refl Hlast Hop).
Qed.

(** C6.  When the last operator of a line is a [<] or [>] with no token
    after it, parsing reads through no null pointer, it returns a
    command (the capacity of [args] permitting), the field of that
    operator is null, and executing the command does not crash and
    makes no call of [open] for that redirection. *)
Theorem trailing_operator_is_no_redirection
    (K : Kernel) (op : string) (line : string) (st : State) :
  is_op op = true ->
  last (redirections (tokens line)) = Some (op, NULL) ->
  parseInput line st <> Crashed NullPointer
  /\ (length (arguments (tokens line)) < MAX_ARGS ->
      exists command st', parseInput line st = Ok command st')
  /\ forall command st',
      parseInput line st = Ok command st' ->
      field_of op command = NULL
      /\ keeps (opens (flags_of op)) (executeCommand K command).
Proof.
  intros Hop Hlast. split; [|split].
  - pose proof (parseInput_spec line st) as Hs.
    destruct (decide (length (arguments (tokens line)) < MAX_ARGS)).
    + destruct Hs as (o & ->). done.
    + rewrite Hs. done.
  - apply parseInput_returns.
  - intros command st' H. apply parseInput_Ok in H as (-> & _ & _).
    pose proof (paths_last_redirection _ _ _ Hlast) as Hp.
    destruct (is_op_cases _ Hop) as [-> | ->]; unfold field_of, flags_of;
      cbn [String.eqb Ascii.eqb Bool.eqb andb].
    + assert (inputFile (command_of (tokens line)) = NULL) as Hnull
        by (cbn [command_of inputFile]; by rewrite Hp).
      split; [done|]. apply executeCommand_opens; [by left|by right].
    + assert (outputFile (command_of (tokens line)) = NULL) as Hnull
        by (cbn [command_of outputFile]; by rewrite Hp).
      split; [done|]. apply executeCommand_opens; [by right|by left].
Qed.

(** * Examples *)

Lemma cd_missing_argument_witness :
  args (command_of ["cd"]) !! 0 = Some (Some (Ptr "cd"))
  /\ args (command_of ["cd"]) !! 1 = Some (Some NULL)
  /\ exists st',
      executeCommand demo_kernel (command_of ["cd"]) (initial_state "") = Ok tt st'
      /\ trace st' = trace (initial_state "") ++
           [(Parent, SysWrite STDERR_FILENO ("cd: missing argument" ++ NL))]
      /\ cwd st' = cwd (initial_state "").
Proof.
  split; [reflexivity|]. split; [reflexivity|].
  apply (cd_missing_argument demo_kernel (command_of ["cd"]) (initial_state ""));
    reflexivity.
Defined.

Lemma cd_failure_reported_witness :
  args (command_of ["cd"; "/nonexistent"]) !! 0 = Some (Some (Ptr "cd"))
  /\ args (command_of ["cd"; "/nonexistent"]) !! 1 = Some (Some (Ptr "/nonexistent"))
  /\ sys_chdir demo_kernel (initial_state "") "/nonexistent" = inr 2%Z
  /\ exists st',
      executeCommand demo_kernel (command_of ["cd"; "/nonexistent"]) (initial_state "")
      = Ok tt st'
      /\ trace st' = trace (initial_state "") ++
           [(Parent, SysChdir "/nonexistent" (inr 2%Z));
            (Parent, SysWrite STDOUT_FILENO
               ("Error 2 (No such file or directory)" ++ NL))]
      /\ cwd st' = cwd (initial_state "").
Proof.
  split; [reflexivity|]. split; [reflexivity|]. split; [reflexivity|].
  apply (cd_failure_reported demo_kernel (command_of ["cd"; "/nonexistent"])
           (initial_state "") "/nonexistent" 2%Z); reflexivity.
Defined.

Lemma blank_line_runs_nothing_witness :
  let st := initial_state ("   " ++ NL ++ "ls" ++ NL) in
  let st1 := emit (Parent, SysWrite STDOUT_FILENO "/home/user$ ") st in
  displayPrompt demo_kernel st = Ok tt st1
  /\ sys_malloc demo_kernel st1 = None
  /\ read_line (MAX_INPUT - 1) (stdin st) = (("   " ++ NL)%string, ("ls" ++ NL)%string)
  /\ ("   " ++ NL)%string <> EmptyString
  /\ blank ("   " ++ NL) = true
  /\ exists st',
      loop_body demo_kernel st = Ok true st'
      /\ trace st' = trace st1
      /\ cwd st' = cwd st
      /\ stdin st' = ("ls" ++ NL)%string
      /\ forall fuel, main_loop demo_kernel (S fuel) st = main_loop demo_kernel fuel st'.
Proof.
  intros st st1.
  split; [reflexivity|]. split; [reflexivity|]. split; [reflexivity|].
  split; [discriminate|]. split; [reflexivity|].
  apply (blank_line_runs_nothing demo_kernel st st1 ("   " ++ NL) ("ls" ++ NL));
    [reflexivity|reflexivity|reflexivity|discriminate|reflexivity].
Defined.

Lemma only_redirections_runs_nothing_witness :
  only_redirections (tokens ("> out.txt" ++ NL)) = true
  /\ exists command o,
      parseInput ("> out.txt" ++ NL) (initial_state "")
      = Ok command (set_olds o (initial_state ""))
      /\ argv command = []
      /\ forall st2, executeCommand demo_kernel command st2 = Ok tt st2.
Proof.
  split; [reflexivity|].
  apply (only_redirections_runs_nothing demo_kernel ("> out.txt" ++ NL)
           (initial_state "")); reflexivity.
Defined.

Lemma trailing_operator_is_no_redirection_witness :
  is_op "<" = true
  /\ last (redirections (tokens ("cat <" ++ NL))) = Some ("<", NULL)
  /\ parseInput ("cat <" ++ NL) (initial_state "") <> Crashed NullPointer
  /\ (length (arguments (tokens ("cat <" ++ NL))) < MAX_ARGS ->
      exists command st',
        parseInput ("cat <" ++ NL) (initial_state "") = Ok command st')
  /\ forall command st',
      parseInput ("cat <" ++ NL) (initial_state "") = Ok command st' ->
      field_of "<" command = NULL
      /\ keeps (opens (flags_of "<")) (executeCommand demo_kernel command).
Proof.
  split; [reflexivity|]. split; [reflexivity|].
  apply (trailing_operator_is_no_redirection demo_kernel "<" ("cat <" ++ NL)
           (initial_state "")); reflexivity.
Defined.

(** What the interpreter does on a line that ends with [<]: the child
    runs [cat] with no redirection. *)
Example cat_with_trailing_operator :
  exists st',
    main demo_kernel (initial_state ("cat <" ++ NL)) = Ok 0%Z st'
    /\ trace st' =
       [(Parent, SysWrite STDOUT_FILENO "/home/user$ ");
        (Parent, SysFork (inl 4242%positive));
        (Child, SysExecvp "cat" ["cat"] None);
        (Parent, SysWait);
        (Parent, SysWrite STDOUT_FILENO "/home/user$ ")].
Proof. eexists. split; vm_compute; reflexivity. Qed.

(** A line that holds a tab is not blank for the tokenizer: the tab is
    the name of a program to run. *)
Example tab_line_is_executed :
  exists st',
    main demo_kernel (initial_state (String "009" NL)) = Ok 0%Z st'
    /\ trace st' =
       [(Parent, SysWrite STDOUT_FILENO "/home/user$ ");
        (Parent, SysFork (inl 4242%positive));
        (Child, SysExecvp (String "009" EmptyString) [String "009" EmptyString] None);
        (Parent, SysWait);
        (Parent, SysWrite STDOUT_FILENO "/home/user$ ")].
Proof. eexists. split; [vm_compute; reflexivity|reflexivity]. Qed.

(** The line of [MAX_ARGS] words reaches the parser whole when it is
    typed at the prompt, and the interpreter stores outside [args]. *)
Example main_hundred_words :
  main demo_kernel (initial_state hundred_words) = Crashed (OutOfBounds MAX_ARGS).
Proof. vm_compute. reflexivity. Qed.

(** A session: a command with a redirection, a blank line, [cd] without
    and with a directory that does not exist, then [exit]. *)
Example session :
  exists st',
    main demo_kernel
      (initial_state ("ls -l > out" ++ NL ++ "  " ++ NL ++ "cd" ++ NL
                      ++ "cd /nonexistent" ++ NL ++ "exit" ++ NL ++ "ls" ++ NL))
    = Exited 0 st'
    /\ cwd st' = "/home/user"
    /\ stdin st' = ("ls" ++ NL)%string
    /\ trace st' =
       [(Parent, SysWrite STDOUT_FILENO "/home/user$ ");
        (Parent, SysFork (inl 4242%positive));
        (Child, SysOpen "out" [O_WRONLY; O_CREAT; O_TRUNC] (Some 420%Z) (inl 3%Z));
        (Child, SysDup2 3 STDOUT_FILENO);
        (Child, SysClose 3);
        (Child, SysExecvp "ls" ["ls"; "-l"] None);
        (Parent, SysWait);
        (Parent, SysWrite STDOUT_FILENO "/home/user$ ");
        (Parent, SysWrite STDOUT_FILENO "/home/user$ ");
        (Parent, SysWrite STDERR_FILENO ("cd: missing argument" ++ NL));
        (Parent, SysWrite STDOUT_FILENO "/home/user$ ");
        (Parent, SysChdir "/nonexistent" (inr 2%Z));
        (Parent, SysWrite STDOUT_FILENO ("Error 2 (No such file or directory)" ++ NL));
        (Parent, SysWrite STDOUT_FILENO "/home/user$ ");
        (Parent, SysExit 0)].
Proof.
  eexists. split; [vm_compute; reflexivity|].
  split; [reflexivity|]. split; reflexivity.
Qed.

(** * Further properties of the tokenizer and the parser *)

(** A space or a newline between two strings separates their tokens. *)
Lemma tokens_app_space s1 c s2 :
  is_space c = true ->
  tokens (s1 ++ String c s2) = tokens s1 ++ tokens s2.
Proof.
  intros Hc. induction s1 as [|a s1 IH].
  - change (EmptyString ++ String c s2)%string with (String c s2).
    by rewrite tokens_space.
  - change (String a s1 ++ String c s2)%string with (String a (s1 ++ String c s2)).
    rewrite (tokens_cons a s1), (tokens_cons a (s1 ++ String c s2)).
    destruct (is_space a); [done|].
    destruct s1 as [|b s1].
    + change (EmptyString ++ String c s2)%string with (String c s2).
      cbv iota. by rewrite Hc, tokens_space.
    + change (String b s1 ++ String c s2)%string
        with (String b (s1 ++ String c s2)) in *.
      cbv iota. destruct (is_space b) eqn:Hb; [rewrite IH; reflexivity|].
      rewrite IH. destruct (tokens (String b s1)) eqn:E; [|reflexivity].
      apply blank_tokens in E. unfold blank in E.
      cbn [list_ascii_of_string forallb] in E. by rewrite Hb in E.
Qed.

Lemma tokens_blank_app pre s : blank pre = true -> tokens (pre ++ s) = tokens s.
Proof.
  unfold blank. induction pre as [|c pre IH]; [done|].
  cbn [list_ascii_of_string forallb]. intros (Hc & Hpre)%andb_true_iff.
  change (String c pre ++ s)%string with (String c (pre ++ s)).
  rewrite tokens_space by done. by apply IH.
Qed.

Lemma tokens_app_blank s post : blank post = true -> tokens (s ++ post) = tokens s.
Proof.
  intros Hb. destruct post as [|c post].
  - assert ((s ++ EmptyString)%string = s) as ->; [|done].
    induction s as [|a s IH]; [done|].
    change (String a s ++ EmptyString)%string with (String a (s ++ EmptyString)).
    by rewrite IH.
  - unfold blank in Hb. cbn [list_ascii_of_string forallb] in Hb.
    apply andb_true_iff in Hb as (Hc & Hpost).
    rewrite tokens_app_space by done.
    apply blank_tokens in Hpost. by rewrite Hpost, app_nil_r.
Qed.

(** Each token takes a character, and a separator but for the last. *)
Lemma tokens_length_half s :
  2 * length (tokens s) <= String.length s + 1
  /\ (match s with
      | EmptyString => True
      | String c _ => is_space c = true
      end -> 2 * length (tokens s) <= String.length s).
Proof.
  induction s as [|c s (IHa & IHb)]; [simpl; lia|].
  rewrite tokens_cons. cbn [String.length].
  destruct (is_space c) eqn:Hc; [lia|].
  split; [|done].
  destruct s as [|d s]; [simpl; lia|].
  destruct (is_space d) eqn:Hd.
  - specialize (IHb eq_refl). cbn [length String.length] in *. lia.
  - destruct (tokens (String d s)); cbn [length String.length] in *; lia.
Qed.

Lemma arguments_length toks : length (arguments toks) <= length toks.
Proof.
  remember (length toks) as n eqn:Hn.
  revert toks Hn. induction n as [n IH] using lt_wf_ind. intros toks ->.
  destruct toks as [|t rest]; [done|].
  destruct (is_op t) eqn:Ht.
  - rewrite (arguments_op _ _ Ht). destruct rest as [|p rest']; [simpl; lia|].
    specialize (IH (length rest') ltac:(simpl; lia) rest' eq_refl).
    cbn [tail length]. lia.
  - rewrite (arguments_arg _ _ Ht).
    specialize (IH (length rest) ltac:(simpl; lia) rest eq_refl).
    cbn [length]. lia.
Qed.

(** X1.  A line shorter than [2 * MAX_ARGS - 1] bytes cannot hold
    [MAX_ARGS] tokens, so the parser returns a command for it. *)
Theorem short_line_is_parsed (line : string) (st : State) :
  String.length line < 2 * MAX_ARGS - 1 ->
  exists command st', parseInput line st = Ok command st'.
Proof.
  intros Hlen. apply parseInput_returns.
  pose proof (tokens_length_half line) as (Ha & _).
  pose proof (arguments_length (tokens line)). lia.
Qed.

Lemma short_line_is_parsed_witness :
  String.length ("ls -l" ++ NL) < 2 * MAX_ARGS - 1
  /\ exists command st', parseInput ("ls -l" ++ NL) (initial_state "") = Ok command st'.
Proof.
  split; [vm_compute; lia|].
  apply (short_line_is_parsed ("ls -l" ++ NL) (initial_state "")). vm_compute. lia.
Defined.

(** The bound is the best one: [MAX_ARGS] one-letter words with single
    spaces take [2 * MAX_ARGS - 1] bytes. *)
Example shortest_overflow :
  String.length (repeat_string (MAX_ARGS - 1) "a " ++ "a") = 2 * MAX_ARGS - 1
  /\ parseInput (repeat_string (MAX_ARGS - 1) "a " ++ "a") (initial_state "")
     = Crashed (OutOfBounds MAX_ARGS).
Proof. split; vm_compute; reflexivity. Qed.

Lemma arguments_Forall (P : string -> Prop) toks :
  Forall P toks -> Forall (fun t => P t /\ is_op t = false) (arguments toks).
Proof.
  remember (length toks) as n eqn:Hn.
  revert toks Hn. induction n as [n IH] using lt_wf_ind. intros toks -> HP.
  destruct toks as [|t rest]; [constructor|].
  inversion HP as [|? ? Ht Hrest]; subst.
  destruct (is_op t) eqn:Hop.
  - rewrite (arguments_op _ _ Hop). destruct rest as [|p rest']; [constructor|].
    inversion Hrest; subst.
    apply (IH (length rest') ltac:(simpl; lia) rest' eq_refl). done.
  - rewrite (arguments_arg _ _ Hop). constructor; [done|].
    apply (IH (length rest) ltac:(simpl; lia) rest eq_refl). done.
Qed.

Lemma redirections_Forall (P : string -> Prop) toks :
  Forall P toks ->
  Forall (fun r => forall p, snd r = Ptr p -> P p) (redirections toks).
Proof.
  remember (length toks) as n eqn:Hn.
  revert toks Hn. induction n as [n IH] using lt_wf_ind. intros toks -> HP.
  destruct toks as [|t rest]; [constructor|].
  inversion HP as [|? ? Ht Hrest]; subst.
  destruct (is_op t) eqn:Hop.
  - rewrite (redirections_op _ _ Hop). destruct rest as [|p rest'].
    + by repeat constructor.
    + inversion Hrest; subst. constructor; [by intros ? [= <-]|].
      apply (IH (length rest') ltac:(simpl; lia) rest' eq_refl). done.
  - rewrite (redirections_arg _ _ Hop).
    apply (IH (length rest) ltac:(simpl; lia) rest eq_refl). done.
Qed.

Lemma paths_Forall (P : string -> Prop) op toks p :
  Forall P toks -> default NULL (last (paths op toks)) = Ptr p -> P p.
Proof.
  intros HP Hlast. pose proof (redirections_Forall P toks HP) as HF.
  destruct (last (paths op toks)) as [q|] eqn:E; [|done].
  simpl in Hlast. subst q.
  apply last_Some_elem_of in E. unfold paths in E.
  apply list_elem_of_fmap in E as ([o q] & Hq & Hin). simpl in Hq. subst q.
  apply list_elem_of_filter in Hin as (_ & Hin).
  rewrite Forall_forall in HF. by apply (HF _ Hin).
Qed.

(** X2.  Every argument of a parsed command is a word, one character or
    more with no space and no newline in it, and is neither [<] nor [>];
    a redirection field that is set holds a word too. *)
Theorem parsed_strings_are_words
    (line : string) (st : State) (command : ShellCommand) (st' : State) :
  parseInput line st = Ok command st' ->
  Forall (fun a => is_word a = true /\ is_op a = false) (argv command)
  /\ (forall p, inputFile command = Ptr p -> is_word p = true)
  /\ (forall p, outputFile command = Ptr p -> is_word p = true).
Proof.
  intros H. apply parseInput_Ok in H as (-> & _ & _).
  rewrite argv_command_of. cbn [command_of inputFile outputFile].
  pose proof (tokens_words line) as Hw.
  split; [by apply arguments_Forall|].
  split; intros p Hp; by apply (paths_Forall _ _ _ _ Hw Hp).
Qed.

Lemma parsed_strings_are_words_witness :
  parseInput ("sort  -r < in.txt" ++ NL) (initial_state "")
  = Ok (command_of ["sort"; "-r"; "<"; "in.txt"]) (initial_state "")
  /\ Forall (fun a => is_word a = true /\ is_op a = false)
       (argv (command_of ["sort"; "-r"; "<"; "in.txt"]))
  /\ (forall p, inputFile (command_of ["sort"; "-r"; "<"; "in.txt"]) = Ptr p ->
      is_word p = true)
  /\ (forall p, outputFile (command_of ["sort"; "-r"; "<"; "in.txt"]) = Ptr p ->
      is_word p = true).
Proof.
  assert (parseInput ("sort  -r < in.txt" ++ NL) (initial_state "")
          = Ok (command_of ["sort"; "-r"; "<"; "in.txt"]) (initial_state "")) as H
    by (vm_compute; reflexivity).
  split; [exact H|].
  exact (parsed_strings_are_words _ _ _ _ H).
Defined.

(** X3.  Spaces and newlines before and after a line do not change the
    command it parses to. *)
Theorem surrounding_blanks_are_ignored
    (pre line post : string) (st : State) (command : ShellCommand) (st' : State) :
  blank pre = true ->
  blank post = true ->
  parseInput line st = Ok command st' ->
  exists st'', parseInput (pre ++ line ++ post) st = Ok command st''.
Proof.
  intros Hpre Hpost H. apply parseInput_Ok in H as (-> & Hlt & _).
  pose proof (parseInput_spec (pre ++ line ++ post) st) as Hs.
  rewrite tokens_blank_app, tokens_app_blank in Hs by done.
  rewrite decide_True in Hs by done. destruct Hs as (o & Hs). eauto.
Qed.

Lemma surrounding_blanks_are_ignored_witness :
  blank "  " = true
  /\ blank (" " ++ NL) = true
  /\ parseInput "ls -l" (initial_state "")
     = Ok (command_of ["ls"; "-l"]) (initial_state "")
  /\ exists st'',
      parseInput ("  " ++ "ls -l" ++ " " ++ NL) (initial_state "")
      = Ok (command_of ["ls"; "-l"]) st''.
Proof.
  assert (parseInput "ls -l" (initial_state "")
          = Ok (command_of ["ls"; "-l"]) (initial_state "")) as H
    by (vm_compute; reflexivity).
  split; [reflexivity|]. split; [reflexivity|]. split; [exact H|].
  apply (surrounding_blanks_are_ignored "  " "ls -l" (" " ++ NL) _ _ _
           eq_refl eq_refl H).
Defined.

(** * Further properties of getInput *)

Lemma read_line_app n s l rest : read_line n s = (l, rest) -> s = (l ++ rest)%string.
Proof.
  revert s l rest. induction n as [|n IH]; intros s l rest.
  - simpl. by intros [= <- <-].
  - destruct s as [|c s]; [by intros [= <- <-]|].
    cbn [read_line]. destruct (Ascii.eqb c "010"); [by intros [= <- <-]|].
    destruct (read_line n s) as [l' rest'] eqn:E. intros [= <- <-].
    change (String c l' ++ rest')%string with (String c (l' ++ rest')).
    by rewrite <- (IH s l' rest' E).
Qed.

Lemma read_line_bound n s l rest :
  read_line n s = (l, rest) -> String.length l <= n.
Proof.
  revert s l rest. induction n as [|n IH]; intros s l rest.
  - simpl. intros [= <- <-]. simpl. lia.
  - destruct s as [|c s]; [intros [= <- <-]; simpl; lia|].
    cbn [read_line]. destruct (Ascii.eqb c "010"); [intros [= <- <-]; simpl; lia|].
    destruct (read_line n s) as [l' rest'] eqn:E. intros [= <- <-].
    specialize (IH s l' rest' E). simpl. lia.
Qed.

(** Where the line stops: after its only newline, or with the room used
    up and no newline, or at the end of the stream with no newline. *)
Lemma read_line_stop n s l rest :
  read_line n s = (l, rest) ->
  (exists l', l = (l' ++ NL)%string /\ has_newline l' = false)
  \/ (has_newline l = false /\ (String.length l = n \/ rest = EmptyString)).
Proof.
  revert s l rest. induction n as [|n IH]; intros s l rest.
  - simpl. intros [= <- <-]. right. split; [done|by left].
  - destruct s as [|c s]; [intros [= <- <-]; right; split; [done|by right]|].
    cbn [read_line]. destruct (Ascii.eqb c "010") eqn:Hc.
    + intros [= <- <-]. left. exists EmptyString.
      apply Ascii.eqb_eq in Hc as ->. done.
    + destruct (read_line n s) as [l' rest'] eqn:E. intros [= <- <-].
      assert (Ascii.eqb "010" c = false) as Hc' by (by rewrite Ascii.eqb_sym).
      destruct (IH s l' rest' E) as [(l0 & -> & Hl0)|(Hl' & Hstop)].
      * left. exists (String c l0). split; [done|].
        unfold has_newline in *. cbn [list_ascii_of_string existsb].
        by rewrite Hc', Hl0.
      * right. split.
        -- unfold has_newline in *. cbn [list_ascii_of_string existsb].
           by rewrite Hc', Hl'.
        -- destruct Hstop as [Hlen| ->]; [left; simpl; lia|by right].
Qed.

Lemma getInput_cases K st :
  match sys_malloc K st with
  | Some e =>
      getInput K st
      = Exited 1
          (emit (Parent, SysExit 1)
             (emit (Parent, SysWrite STDERR_FILENO ("malloc: " ++ strerror K e ++ NL))
                (set_errno e st)))
  | None =>
      match read_line (MAX_INPUT - 1) (stdin st) with
      | (EmptyString, _) => getInput K st = Ok NULL st
      | (l, rest) => getInput K st = Ok (Ptr (cstring l)) (set_stdin rest st)
      end
  end.
Proof.
  unfold getInput, malloc, fgets, bind, get.
  destruct (sys_malloc K st); [reflexivity|].
  cbn [ret negb]. destruct (read_line (MAX_INPUT - 1) (stdin st)) as [[|c l] rest];
    reflexivity.
Qed.

(** X4.  A line that [getInput] returns is the C string of a piece of
    standard input of one byte or more and fewer than [MAX_INPUT]: the
    bytes read up to their first NUL, all of them when none is NUL.
    The rest of the stream stays for the next call.  The bytes read
    stop after their first newline; with no newline they are
    [MAX_INPUT - 1] or go to the end of the stream. *)
Theorem getInput_line_bounds (K : Kernel) (st st' : State) (line : string) :
  getInput K st = Ok (Ptr line) st' ->
  exists bytes,
    stdin st = (bytes ++ stdin st')%string
    /\ line = cstring bytes
    /\ 1 <= String.length bytes < MAX_INPUT
    /\ String.length line <= String.length bytes
    /\ has_nul line = false
    /\ (has_nul bytes = false -> line = bytes)
    /\ trace st' = trace st /\ cwd st' = cwd st
    /\ ((exists l, bytes = (l ++ NL)%string /\ has_newline l = false)
        \/ (has_newline bytes = false
            /\ (String.length bytes = MAX_INPUT - 1 \/ stdin st' = EmptyString))).
Proof.
  intros H. pose proof (getInput_cases K st) as Hc.
  destruct (sys_malloc K st); [by rewrite H in Hc|].
  destruct (read_line (MAX_INPUT - 1) (stdin st)) as [l rest] eqn:Hr.
  destruct l as [|c l]; rewrite H in Hc; [done|].
  injection Hc as -> ->. exists (String c l).
  pose proof (read_line_bound _ _ _ _ Hr) as Hb.
  split; [exact (read_line_app _ _ _ _ Hr)|].
  split; [done|].
  split; [cbn [String.length] in *; unfold MAX_INPUT in *; lia|].
  split; [exact (cstring_length (String c l))|].
  split; [exact (cstring_has_nul (String c l))|].
  split; [exact (cstring_id (String c l))|].
  split; [done|]. split; [done|].
  exact (read_line_stop _ _ _ _ Hr).
Qed.

Lemma getInput_line_bounds_witness :
  let input := (String "l" (String "000" ("s" ++ NL)) ++ "pwd" ++ NL)%string in
  getInput demo_kernel (initial_state input) = Ok (Ptr "l") (initial_state ("pwd" ++ NL))
  /\ exists bytes,
      stdin (initial_state input) = (bytes ++ stdin (initial_state ("pwd" ++ NL)))%string
      /\ "l" = cstring bytes
      /\ 1 <= String.length bytes < MAX_INPUT
      /\ String.length "l" <= String.length bytes
      /\ has_nul "l" = false
      /\ (has_nul bytes = false -> "l" = bytes)
      /\ trace (initial_state ("pwd" ++ NL)) = trace (initial_state input)
      /\ cwd (initial_state ("pwd" ++ NL)) = cwd (initial_state input)
      /\ ((exists l, bytes = (l ++ NL)%string /\ has_newline l = false)
          \/ (has_newline bytes = false
              /\ (String.length bytes = MAX_INPUT - 1
                  \/ stdin (initial_state ("pwd" ++ NL)) = EmptyString))).
Proof.
  intros input.
  assert (getInput demo_kernel (initial_state input)
          = Ok (Ptr "l") (initial_state ("pwd" ++ NL))) as H
    by reflexivity.
  split; [exact H|].
  exact (getInput_line_bounds demo_kernel _ _ _ H).
Defined.

(** X5.  A line of [MAX_INPUT - 1] bytes or more without a newline is
    cut: [getInput] takes its first [MAX_INPUT - 1] bytes, returns their
    C string, which is all of them when none is NUL, and leaves the
    others to be read as the next line. *)
Theorem long_line_is_cut (K : Kernel) (st : State) (head tail : string) :
  sys_malloc K st = None ->
  stdin st = (head ++ tail)%string ->
  String.length head = MAX_INPUT - 1 ->
  has_newline head = false ->
  getInput K st = Ok (Ptr (cstring head)) (set_stdin tail st)
  /\ (has_nul head = false -> getInput K st = Ok (Ptr head) (set_stdin tail st)).
Proof.
  intros Hm Hs Hlen Hnl. pose proof (getInput_cases K st) as Hc.
  rewrite Hm, Hs in Hc.
  assert (forall n h t, String.length h = n -> has_newline h = false ->
            read_line n (h ++ t) = (h, t)) as Hread.
  { clear. induction n as [|n IH]; intros h t Hlen Hnl.
    - destruct h; [done|simpl in Hlen; lia].
    - destruct h as [|c h]; [simpl in Hlen; lia|].
      change (String c h ++ t)%string with (String c (h ++ t)).
      unfold has_newline in Hnl. cbn [list_ascii_of_string existsb] in Hnl.
      apply orb_false_iff in Hnl as (Hc & Hh).
      cbn [read_line]. rewrite Ascii.eqb_sym, Hc.
      rewrite IH; [done|simpl in Hlen; lia|exact Hh]. }
  rewrite (Hread _ _ _ Hlen Hnl) in Hc.
  assert (getInput K st = Ok (Ptr (cstring head)) (set_stdin tail st)) as Hg.
  { destruct head as [|c h]; [unfold MAX_INPUT in Hlen; simpl in Hlen; lia|exact Hc]. }
  split; [exact Hg|]. intros Hnul. by rewrite (cstring_id head Hnul) in Hg.
Qed.

Lemma long_line_is_cut_witness :
  let st := initial_state (repeat_string 1023 "x" ++ "yz" ++ NL) in
  sys_malloc demo_kernel st = None
  /\ stdin st = (repeat_string 1023 "x" ++ ("yz" ++ NL))%string
  /\ String.length (repeat_string 1023 "x") = MAX_INPUT - 1
  /\ has_newline (repeat_string 1023 "x") = false
  /\ has_nul (repeat_string 1023 "x") = false
  /\ getInput demo_kernel st
     = Ok (Ptr (cstring (repeat_string 1023 "x"))) (set_stdin ("yz" ++ NL) st)
  /\ (has_nul (repeat_string 1023 "x") = false ->
      getInput demo_kernel st
      = Ok (Ptr (repeat_string 1023 "x")) (set_stdin ("yz" ++ NL) st)).
Proof.
  intros st.
  split; [reflexivity|]. split; [reflexivity|].
  split; [vm_compute; reflexivity|]. split; [vm_compute; reflexivity|].
  split; [vm_compute; reflexivity|].
  apply (long_line_is_cut demo_kernel st (repeat_string 1023 "x") ("yz" ++ NL));
    [reflexivity|reflexivity|vm_compute; reflexivity|vm_compute; reflexivity].
Defined.

(** X6.  When the buffer is allocated, [getInput] returns null exactly
    at the end of standard input, and then changes nothing. *)
Theorem getInput_null_iff_end (K : Kernel) (st : State) :
  sys_malloc K st = None ->
  (stdin st = EmptyString <-> exists st', getInput K st = Ok NULL st')
  /\ (stdin st = EmptyString -> getInput K st = Ok NULL st).
Proof.
  intros Hm. pose proof (getInput_cases K st) as Hc. rewrite Hm in Hc.
  destruct (read_line (MAX_INPUT - 1) (stdin st)) as [l rest] eqn:Hr.
  assert (stdin st = EmptyString <-> l = EmptyString) as Hiff.
  { split.
    - intros Hs. rewrite Hs in Hr. simpl in Hr. by injection Hr as <- _.
    - intros ->. destruct (stdin st) as [|c s]; [done|].
      change (MAX_INPUT - 1) with (S (MAX_INPUT - 2)) in Hr.
      cbn [read_line] in Hr.
      destruct (Ascii.eqb c "010"); [done|].
      by destruct (read_line (MAX_INPUT - 2) s). }
  split; [|intros Hs; apply Hiff in Hs; by subst l].
  rewrite Hiff. destruct l as [|c l].
  - split; [eauto|done].
  - split; [done|]. intros (st' & H). by rewrite H in Hc.
Qed.

Lemma getInput_null_iff_end_witness :
  sys_malloc demo_kernel (initial_state "") = None
  /\ (stdin (initial_state "") = EmptyString
      <-> exists st', getInput demo_kernel (initial_state "") = Ok NULL st')
  /\ (stdin (initial_state "") = EmptyString ->
      getInput demo_kernel (initial_state "") = Ok NULL (initial_state "")).
Proof.
  split; [reflexivity|].
  apply (getInput_null_iff_end demo_kernel (initial_state "")). reflexivity.
Defined.

(** * Further properties of executeCommand *)

Lemma argv_upto_null_lookup (a : list cell) j s :
  argv_upto_null a !! j = Some s -> a !! j = Some (Some (Ptr s)).
Proof.
  revert j. induction a as [|[[|x]|] a IH]; intros j; try done.
  destruct j as [|j]; cbn [argv_upto_null].
  - by intros [= ->].
  - apply IH.
Qed.

Lemma read_argv_terminated (a : list cell) i st :
  a !! length (argv_upto_null a) = Some (Some NULL) ->
  read_argv a i st = Ok (argv_upto_null a) st.
Proof.
  revert i. induction a as [|[[|x]|] a IH]; intros i H; try done.
  cbn [argv_upto_null length] in H. cbn [read_argv argv_upto_null].
  by rewrite (bind_Ok _ _ _ _ _ (IH (S i) H)).
Qed.

Lemma command_of_terminated toks :
  length (arguments toks) < MAX_ARGS -> terminated (command_of toks).
Proof.
  intros H. unfold terminated. rewrite argv_command_of.
  cbn [command_of args]. unfold args_of.
  rewrite lookup_app_r by (rewrite !length_fmap; lia).
  by rewrite !length_fmap, Nat.sub_diag.
Qed.

Lemma strcmp_ne s1 s2 st :
  s1 <> s2 -> exists z, strcmp (Ptr s1) (Ptr s2) st = Ok z st /\ (z =? 0)%Z = false.
Proof.
  intros Hne. destruct (strcmp_eqb s1 s2 st) as (z & Hz & Hzb).
  exists z. split; [done|]. rewrite Hzb. by apply String.eqb_neq.
Qed.

Section External.

Context (K : Kernel).

(** A command that is neither [exit] nor [cd] goes to [fork]. *)
Lemma executeCommand_external command st a :
  args command !! 0 = Some (Some (Ptr a)) ->
  a <> "exit" -> a <> "cd" ->
  executeCommand K command st
  = fork_and K (fun who pid => after_fork K who command pid) st.
Proof.
  intros H0 Hexit Hcd. unfold executeCommand, load. rewrite H0, bind_ret.
  destruct (strcmp_ne a "exit" st Hexit) as (z & Hz & Hzb).
  rewrite (bind_Ok _ _ _ _ _ Hz), Hzb.
  destruct (strcmp_ne a "cd" st Hcd) as (z' & Hz' & Hzb').
  by rewrite (bind_Ok _ _ _ _ _ Hz'), Hzb'.
Qed.

Lemma fork_and_failed body st e :
  sys_fork K st = inr e ->
  fork_and K body st
  = body Parent (-1)%Z (set_errno e (emit (Parent, SysFork (inr e)) st)).
Proof. intros H. unfold fork_and, bind, get, modify. by rewrite H. Qed.

Lemma fork_and_forked body st pid :
  sys_fork K st = inl pid ->
  fork_and K body st
  = match body Child 0%Z (emit (Parent, SysFork (inl pid)) st) with
    | Ok _ st' | Exited _ st' | Replaced st' =>
        body Parent (Z.pos pid)
          (set_trace (trace st') (emit (Parent, SysFork (inl pid)) st))
    | Crashed f => Crashed f
    end.
Proof.
  intros H. unfold fork_and, bind, get, modify. rewrite H.
  by destruct (body Child 0%Z (emit (Parent, SysFork (inl pid)) st)).
Qed.

Lemma after_fork_parent command pid st :
  after_fork K Parent command (Z.pos pid) st = Ok tt (emit (Parent, SysWait) st).
Proof. reflexivity. Qed.

Lemma after_fork_failed command st :
  after_fork K Parent command (-1)%Z st
  = Ok tt (emit (Parent, SysWrite STDERR_FILENO ("fork: " ++ strerror K (errno st) ++ NL)) st).
Proof. reflexivity. Qed.

Lemma bind_Exited {A B} (m : M A) (k : A -> M B) st n st' :
  m st = Exited n st' -> bind m k st = Exited n st'.
Proof. unfold bind. by intros ->. Qed.

(** The redirection block of the child when [open] fails, and when it
    succeeds. *)
Lemma redirect_open_failed who p fl mode target st e :
  sys_open K st p fl mode = inr e ->
  (fd <- open K who (Ptr p) fl mode ;;
   (if (fd <? 0)%Z then print_error K who ;;; exit_process who 1 else ret tt) ;;;
   dup2 who fd target ;;;
   close who fd) st
  = Exited 1
      (emit (who, SysExit 1)
         (emit (who, SysWrite STDOUT_FILENO (error_line K e))
            (set_errno e (emit (who, SysOpen p fl mode (inr e)) st)))).
Proof.
  intros H. unfold open, print_error, exit_process, fputs, bind, get, modify.
  by rewrite H.
Qed.

Lemma redirect_opened who p fl mode target st fd :
  sys_open K st p fl mode = inl fd ->
  (0 <= fd)%Z ->
  (fd <- open K who (Ptr p) fl mode ;;
   (if (fd <? 0)%Z then print_error K who ;;; exit_process who 1 else ret tt) ;;;
   dup2 who fd target ;;;
   close who fd) st
  = Ok tt
      (emit (who, SysClose fd)
         (emit (who, SysDup2 fd target)
            (emit (who, SysOpen p fl mode (inl fd)) st))).
Proof.
  intros H Hfd. apply Z.ltb_ge in Hfd.
  unfold open, dup2, close, bind, get, modify. rewrite H.
  cbn [ret]. by rewrite Hfd.
Qed.

(** The end of the child: [execvp], and on failure the report and
    [exit(1)]. *)
Lemma child_exec command st a l :
  argv command = a :: l ->
  terminated command ->
  (file <- load (args command) 0 ;;
   execvp K Child file (args command) ;;;
   print_error K Child ;;;
   exit_process Child 1) st
  = match sys_execvp K st a (a :: l) with
    | None => Replaced (emit (Child, SysExecvp a (a :: l) None) st)
    | Some e =>
        Exited 1
          (emit (Child, SysExit 1)
             (emit (Child, SysWrite STDOUT_FILENO (error_line K e))
                (set_errno e (emit (Child, SysExecvp a (a :: l) (Some e)) st))))
    end.
Proof.
  intros Hargv Hterm. unfold load.
  assert (args command !! 0 = Some (Some (Ptr a))) as ->.
  { apply argv_upto_null_lookup. fold (argv command). by rewrite Hargv. }
  rewrite bind_ret. unfold execvp.
  pose proof (read_argv_terminated (args command) 0 st Hterm) as Hr.
  fold (argv command) in Hr. rewrite Hargv in Hr.
  unfold bind at 1. unfold bind at 1. rewrite Hr.
  unfold bind, get, modify.
  by destruct (sys_execvp K st a (a :: l)).
Qed.

Lemma executeCommand_exit command st :
  args command !! 0 = Some (Some (Ptr "exit")) ->
  executeCommand K command st = Exited 0 (emit (Parent, SysExit 0) st).
Proof. intros H0. unfold executeCommand, load. by rewrite H0. Qed.

(** The child never crashes on a command whose arguments end with a
    null pointer. *)
Lemma child_never_crashes command st a l :
  argv command = a :: l ->
  terminated command ->
  exists st', final_state (after_fork K Child command 0%Z st) = Some st'.
Proof.
  intros Hargv Hterm.
  assert (keeps (fun _ : State => tt) (after_fork K Child command 0%Z)) as Hk.
  { unfold after_fork. cbn [Z.ltb Z.eqb Z.compare].
    apply keeps_bind.
    { apply (keeps_redirect K (fun _ : State => tt) (fun _ => True)); try done.
      by right. }
    intros _. apply keeps_bind.
    { apply (keeps_redirect K (fun _ : State => tt) (fun _ => True)); try done.
      by right. }
    intros _ s. rewrite (child_exec command s a l Hargv Hterm).
    destruct (sys_execvp K s a (a :: l)); eexists; (split; [reflexivity|done]). }
  destruct (Hk st) as (st' & H & _). eauto.
Qed.

(** A command that does not start with [exit] returns to the loop. *)
Lemma executeCommand_returns command st :
  terminated command ->
  (forall l, argv command <> "exit" :: l) ->
  exists st',
    executeCommand K command st = Ok tt st'
    /\ stdin st' = stdin st
    /\ ((forall l, argv command <> "cd" :: l) -> cwd st' = cwd st).
Proof.
  intros Hterm Hexit. pose proof Hterm as Ht. unfold terminated in Ht.
  destruct (argv command) as [|a l] eqn:Hargv.
  { exists st. by rewrite (executeCommand_empty K _ _ Ht). }
  assert (args command !! 0 = Some (Some (Ptr a))) as H0.
  { apply argv_upto_null_lookup. fold (argv command). by rewrite Hargv. }
  assert (a <> "exit") as Hne by (intros ->; by apply (Hexit l)).
  destruct (decide (a = "cd")) as [->|Hcd].
  - rewrite (executeCommand_cd _ _ _ H0). unfold load.
    destruct l as [|b l].
    + cbn [length] in Ht. rewrite Ht.
      eexists. split; [reflexivity|]. split; [reflexivity|].
      intros H. by destruct (H []).
    + assert (args command !! 1 = Some (Some (Ptr b))) as ->.
      { apply argv_upto_null_lookup. fold (argv command). by rewrite Hargv. }
      rewrite bind_ret. unfold chdir, bind, get.
      destruct (sys_chdir K st b); eexists;
        (split; [reflexivity|]; split; [reflexivity|]);
        intros H; by destruct (H (b :: l)).
  - rewrite (executeCommand_external _ _ _ H0 Hne Hcd).
    destruct (sys_fork K st) as [pid|e] eqn:Hfork.
    + rewrite (fork_and_forked _ _ _ Hfork).
      destruct (child_never_crashes command (emit (Parent, SysFork (inl pid)) st)
                  a l Hargv Hterm) as (s' & Hs').
      destruct (after_fork K Child command 0%Z (emit (Parent, SysFork (inl pid)) st))
        as [[] s|n s|s|f]; simpl in Hs'; try discriminate;
        rewrite after_fork_parent; eexists; (split; [reflexivity|done]).
    + rewrite (fork_and_failed _ _ _ Hfork), after_fork_failed.
      eexists. split; [reflexivity|done].
Qed.

End External.

Section Executing.

Context (K : Kernel).

(** X7.  A line whose first argument is [exit] ends the interpreter
    with status 0, whatever its other arguments and its redirections:
    no process is created and no file is opened. *)
Theorem exit_ends_interpreter
    (line : string) (st st1 : State) (command : ShellCommand) (l : list string) :
  parseInput line st = Ok command st1 ->
  arguments (tokens line) = "exit" :: l ->
  forall st2, executeCommand K command st2 = Exited 0 (emit (Parent, SysExit 0) st2).
Proof.
  intros H Hargs st2. apply parseInput_Ok in H as (-> & _ & _).
  apply executeCommand_exit. cbn [command_of args].
  by rewrite args_of_lookup_0, Hargs.
Qed.

(** X8.  When the directory change of [cd] succeeds the working
    directory is the new one, nothing is printed, further arguments and
    redirection fields are ignored, and the next prompt shows the new
    directory followed by [$ ]. *)
Theorem cd_then_prompt (command : ShellCommand) (st : State) (path d : string) :
  args command !! 0 = Some (Some (Ptr "cd")) ->
  args command !! 1 = Some (Some (Ptr path)) ->
  sys_chdir K st path = inl d ->
  exists st',
    executeCommand K command st = Ok tt st'
    /\ cwd st' = d
    /\ trace st' = trace st ++ [(Parent, SysChdir path (inl d))]
    /\ (sys_getcwd K st' = None ->
        displayPrompt K st'
        = Ok tt (emit (Parent, SysWrite STDOUT_FILENO (d ++ "$ ")) st')).
Proof.
  intros H0 H1 Hok. rewrite (executeCommand_cd _ _ _ H0). unfold load. rewrite H1.
  rewrite bind_ret. unfold chdir, bind, get. rewrite Hok.
  eexists. split; [reflexivity|]. split; [reflexivity|]. split; [reflexivity|].
  intros Hg. unfold displayPrompt, getcwd, bind, get. by rewrite Hg.
Qed.

(** X9.  Only [exit] ends the interpreter: the command of a line whose
    first argument is not [exit] returns to the loop, whatever the
    system answers ([fork], [open] or [execvp] may fail).  It takes
    nothing from standard input, and unless it is [cd] it leaves the
    working directory as it was. *)
Theorem only_exit_ends_interpreter
    (line : string) (st st1 : State) (command : ShellCommand) (st2 : State) :
  parseInput line st = Ok command st1 ->
  (forall l, arguments (tokens line) <> "exit" :: l) ->
  exists st',
    executeCommand K command st2 = Ok tt st'
    /\ stdin st' = stdin st2
    /\ ((forall l, arguments (tokens line) <> "cd" :: l) -> cwd st' = cwd st2).
Proof.
  intros H Hexit. apply parseInput_Ok in H as (-> & Hlt & _).
  pose proof (executeCommand_returns K (command_of (tokens line)) st2
                (command_of_terminated _ Hlt)) as Hr.
  rewrite argv_command_of in Hr. by apply Hr.
Qed.

(** X10.  When [fork] fails, the interpreter writes [fork: ] and the
    description of the error on standard error and returns to the loop:
    no child runs, no file is opened and there is no [wait]. *)
Theorem fork_failure_is_reported
    (command : ShellCommand) (st : State) (a : string) (e : Z) :
  args command !! 0 = Some (Some (Ptr a)) ->
  a <> "exit" -> a <> "cd" ->
  sys_fork K st = inr e ->
  exists st',
    executeCommand K command st = Ok tt st'
    /\ trace st' = trace st ++
         [(Parent, SysFork (inr e));
          (Parent, SysWrite STDERR_FILENO ("fork: " ++ strerror K e ++ NL))]
    /\ cwd st' = cwd st.
Proof.
  intros H0 Hexit Hcd Hfork.
  rewrite (executeCommand_external K _ _ _ H0 Hexit Hcd).
  rewrite (fork_and_failed K _ _ _ Hfork), after_fork_failed.
  eexists. split; [reflexivity|]. split; [|reflexivity].
  cbn [trace emit set_errno errno]. by rewrite <- app_assoc.
Qed.

(** X11.  When the file of the input redirection cannot be opened, the
    child prints the error and exits with status 1: the program is not
    executed and the file of the output redirection is not opened, so
    it is neither created nor truncated.  The interpreter waits for the
    child and goes on. *)
Theorem input_open_failure
    (command : ShellCommand) (st : State) (a p : string) (pid : positive) (e : Z) :
  args command !! 0 = Some (Some (Ptr a)) ->
  a <> "exit" -> a <> "cd" ->
  inputFile command = Ptr p ->
  sys_fork K st = inl pid ->
  sys_open K (emit (Parent, SysFork (inl pid)) st) p [O_RDONLY] None = inr e ->
  exists st',
    executeCommand K command st = Ok tt st'
    /\ trace st' = trace st ++
         [(Parent, SysFork (inl pid));
          (Child, SysOpen p [O_RDONLY] None (inr e));
          (Child, SysWrite STDOUT_FILENO (error_line K e));
          (Child, SysExit 1);
          (Parent, SysWait)]
    /\ cwd st' = cwd st /\ errno st' = errno st.
Proof.
  intros H0 Hexit Hcd Hin Hfork Hopen.
  rewrite (executeCommand_external K _ _ _ H0 Hexit Hcd).
  rewrite (fork_and_forked K _ _ _ Hfork). cbv beta.
  assert (after_fork K Child command 0%Z (emit (Parent, SysFork (inl pid)) st)
          = Exited 1
              (emit (Child, SysExit 1)
                 (emit (Child, SysWrite STDOUT_FILENO (error_line K e))
                    (set_errno e
                       (emit (Child, SysOpen p [O_RDONLY] None (inr e))
                          (emit (Parent, SysFork (inl pid)) st)))))) as ->.
  { unfold after_fork. cbn [Z.ltb Z.eqb Z.compare]. rewrite Hin.
    apply bind_Exited. by apply redirect_open_failed. }
  rewrite after_fork_parent.
  eexists. split; [reflexivity|]. split; [|done].
  cbn [trace emit set_errno set_trace errno]. by rewrite <- !app_assoc.
Qed.

(** X12.  When there is no input redirection and the file of the output
    redirection cannot be opened, the child prints the error and exits
    with status 1 without executing the program. *)
Theorem output_open_failure
    (command : ShellCommand) (st : State) (a p : string) (pid : positive) (e : Z) :
  args command !! 0 = Some (Some (Ptr a)) ->
  a <> "exit" -> a <> "cd" ->
  inputFile command = NULL ->
  outputFile command = Ptr p ->
  sys_fork K st = inl pid ->
  sys_open K (emit (Parent, SysFork (inl pid)) st) p [O_WRONLY; O_CREAT; O_TRUNC]
    (Some 420%Z) = inr e ->
  exists st',
    executeCommand K command st = Ok tt st'
    /\ trace st' = trace st ++
         [(Parent, SysFork (inl pid));
          (Child, SysOpen p [O_WRONLY; O_CREAT; O_TRUNC] (Some 420%Z) (inr e));
          (Child, SysWrite STDOUT_FILENO (error_line K e));
          (Child, SysExit 1);
          (Parent, SysWait)]
    /\ cwd st' = cwd st /\ errno st' = errno st.
Proof.
  intros H0 Hexit Hcd Hin Hout Hfork Hopen.
  rewrite (executeCommand_external K _ _ _ H0 Hexit Hcd).
  rewrite (fork_and_forked K _ _ _ Hfork). cbv beta.
  assert (after_fork K Child command 0%Z (emit (Parent, SysFork (inl pid)) st)
          = Exited 1
              (emit (Child, SysExit 1)
                 (emit (Child, SysWrite STDOUT_FILENO (error_line K e))
                    (set_errno e
                       (emit (Child, SysOpen p [O_WRONLY; O_CREAT; O_TRUNC]
                                       (Some 420%Z) (inr e))
                          (emit (Parent, SysFork (inl pid)) st)))))) as ->.
  { unfold after_fork. cbn [Z.ltb Z.eqb Z.compare]. rewrite Hin, Hout.
    rewrite bind_ret. apply bind_Exited. by apply redirect_open_failed. }
  rewrite after_fork_parent.
  eexists. split; [reflexivity|]. split; [|done].
  cbn [trace emit set_errno set_trace errno]. by rewrite <- !app_assoc.
Qed.

(** X13.  A command without redirection runs in a child: [execvp] gets
    the first argument as the program and all the arguments, in order,
    as its argument vector.  If [execvp] fails the child prints the
    error and exits with status 1.  The interpreter waits for the
    child; its working directory and its [errno] stay as they were. *)
Theorem plain_command_is_executed
    (command : ShellCommand) (st : State) (a : string) (l : list string)
    (pid : positive) :
  argv command = a :: l ->
  terminated command ->
  a <> "exit" -> a <> "cd" ->
  inputFile command = NULL ->
  outputFile command = NULL ->
  sys_fork K st = inl pid ->
  exists st',
    executeCommand K command st = Ok tt st'
    /\ trace st' = trace st ++
         [(Parent, SysFork (inl pid))] ++
         match sys_execvp K (emit (Parent, SysFork (inl pid)) st) a (a :: l) with
         | None => [(Child, SysExecvp a (a :: l) None)]
         | Some e =>
             [(Child, SysExecvp a (a :: l) (Some e));
              (Child, SysWrite STDOUT_FILENO (error_line K e));
              (Child, SysExit 1)]
         end ++ [(Parent, SysWait)]
    /\ cwd st' = cwd st /\ errno st' = errno st.
Proof.
  intros Hargv Hterm Hexit Hcd Hin Hout Hfork.
  assert (args command !! 0 = Some (Some (Ptr a))) as H0.
  { apply argv_upto_null_lookup. fold (argv command). by rewrite Hargv. }
  rewrite (executeCommand_external K _ _ _ H0 Hexit Hcd).
  rewrite (fork_and_forked K _ _ _ Hfork). cbv beta.
  assert (after_fork K Child command 0%Z (emit (Parent, SysFork (inl pid)) st)
          = match sys_execvp K (emit (Parent, SysFork (inl pid)) st) a (a :: l) with
            | None =>
                Replaced (emit (Child, SysExecvp a (a :: l) None)
                            (emit (Parent, SysFork (inl pid)) st))
            | Some e =>
                Exited 1
                  (emit (Child, SysExit 1)
                     (emit (Child, SysWrite STDOUT_FILENO (error_line K e))
                        (set_errno e
                           (emit (Child, SysExecvp a (a :: l) (Some e))
                              (emit (Parent, SysFork (inl pid)) st)))))
            end) as ->.
  { unfold after_fork. cbn [Z.ltb Z.eqb Z.compare]. rewrite Hin, Hout.
    rewrite !bind_ret. by apply child_exec. }
  destruct (sys_execvp K (emit (Parent, SysFork (inl pid)) st) a (a :: l));
    rewrite after_fork_parent;
    (eexists; split; [reflexivity|]; split; [|done]);
    cbn [trace emit set_errno set_trace errno app]; by rewrite <- !app_assoc.
Qed.

(** X14.  With both redirections and both files opened, the child puts
    the input file on descriptor 0 and the output file, opened for
    writing with creation and truncation and mode 0644, on descriptor 1,
    closes the two descriptors it got, and then calls [execvp] with the
    arguments.  If [execvp] fails the error is printed on descriptor 1,
    which is the output file by then. *)
Theorem redirected_command_is_executed
    (command : ShellCommand) (st : State) (a : string) (l : list string)
    (pin pout : string) (pid : positive) (fd_in fd_out : Z) (r : option Z) :
  argv command = a :: l ->
  terminated command ->
  a <> "exit" -> a <> "cd" ->
  inputFile command = Ptr pin ->
  outputFile command = Ptr pout ->
  sys_fork K st = inl pid ->
  (forall s, sys_open K s pin [O_RDONLY] None = inl fd_in) ->
  (0 <= fd_in)%Z ->
  (forall s, sys_open K s pout [O_WRONLY; O_CREAT; O_TRUNC] (Some 420%Z) = inl fd_out) ->
  (0 <= fd_out)%Z ->
  (forall s, sys_execvp K s a (a :: l) = r) ->
  exists st',
    executeCommand K command st = Ok tt st'
    /\ trace st' = trace st ++
         [(Parent, SysFork (inl pid));
          (Child, SysOpen pin [O_RDONLY] None (inl fd_in));
          (Child, SysDup2 fd_in STDIN_FILENO);
          (Child, SysClose fd_in);
          (Child, SysOpen pout [O_WRONLY; O_CREAT; O_TRUNC] (Some 420%Z) (inl fd_out));
          (Child, SysDup2 fd_out STDOUT_FILENO);
          (Child, SysClose fd_out);
          (Child, SysExecvp a (a :: l) r)] ++
         match r with
         | None => []
         | Some e =>
             [(Child, SysWrite STDOUT_FILENO (error_line K e)); (Child, SysExit 1)]
         end ++ [(Parent, SysWait)]
    /\ cwd st' = cwd st /\ errno st' = errno st.
Proof.
  intros Hargv Hterm Hexit Hcd Hin Hout Hfork Hopen_in Hfd_in Hopen_out Hfd_out Hexec.
  assert (args command !! 0 = Some (Some (Ptr a))) as H0.
  { apply argv_upto_null_lookup. fold (argv command). by rewrite Hargv. }
  rewrite (executeCommand_external K _ _ _ H0 Hexit Hcd).
  rewrite (fork_and_forked K _ _ _ Hfork). cbv beta.
  set (st1 := emit (Parent, SysFork (inl pid)) st).
  set (st2 := emit (Child, SysClose fd_in)
                (emit (Child, SysDup2 fd_in STDIN_FILENO)
                   (emit (Child, SysOpen pin [O_RDONLY] None (inl fd_in)) st1))).
  set (st3 := emit (Child, SysClose fd_out)
                (emit (Child, SysDup2 fd_out STDOUT_FILENO)
                   (emit (Child, SysOpen pout [O_WRONLY; O_CREAT; O_TRUNC]
                                   (Some 420%Z) (inl fd_out)) st2))).
  assert (after_fork K Child command 0%Z st1
          = match r with
            | None => Replaced (emit (Child, SysExecvp a (a :: l) None) st3)
            | Some e =>
                Exited 1
                  (emit (Child, SysExit 1)
                     (emit (Child, SysWrite STDOUT_FILENO (error_line K e))
                        (set_errno e
                           (emit (Child, SysExecvp a (a :: l) (Some e)) st3))))
            end) as ->.
  { unfold after_fork. cbn [Z.ltb Z.eqb Z.compare]. rewrite Hin, Hout.
    rewrite (bind_Ok _ _ _ _ _
      (redirect_opened K Child pin [O_RDONLY] None STDIN_FILENO st1 fd_in
         (Hopen_in st1) Hfd_in)).
    rewrite (bind_Ok _ _ _ _ _
      (redirect_opened K Child pout [O_WRONLY; O_CREAT; O_TRUNC] (Some 420%Z)
         STDOUT_FILENO _ fd_out (Hopen_out _) Hfd_out)).
    rewrite (child_exec K command _ a l Hargv Hterm), Hexec. reflexivity. }
  destruct r; rewrite after_fork_parent;
    (eexists; split; [reflexivity|]; split; [|done]);
    cbn [trace emit set_errno set_trace errno app]; subst st3 st2 st1;
    cbn [trace emit]; by rewrite <- !app_assoc.
Qed.

End Executing.

(** * How the interpreter ends *)





(** * Examples of the further properties *)

Lemma exit_ends_interpreter_witness :
  parseInput ("exit 3 > f" ++ NL) (initial_state "")
  = Ok (command_of ["exit"; "3"; ">"; "f"]) (initial_state "")
  /\ arguments (tokens ("exit 3 > f" ++ NL)) = ["exit"; "3"]
  /\ forall st2,
      executeCommand demo_kernel (command_of ["exit"; "3"; ">"; "f"]) st2
      = Exited 0 (emit (Parent, SysExit 0) st2).
Proof.
  assert (parseInput ("exit 3 > f" ++ NL) (initial_state "")
          = Ok (command_of ["exit"; "3"; ">"; "f"]) (initial_state "")) as H
    by (vm_compute; reflexivity).
  split; [exact H|]. split; [reflexivity|].
  exact (exit_ends_interpreter demo_kernel _ _ _ _ ["3"] H eq_refl).
Defined.

Lemma cd_then_prompt_witness :
  args (command_of ["cd"; "/tmp"; "more"]) !! 0 = Some (Some (Ptr "cd"))
  /\ args (command_of ["cd"; "/tmp"; "more"]) !! 1 = Some (Some (Ptr "/tmp"))
  /\ sys_chdir demo_kernel (initial_state "") "/tmp" = inl "/tmp"
  /\ exists st',
      executeCommand demo_kernel (command_of ["cd"; "/tmp"; "more"]) (initial_state "")
      = Ok tt st'
      /\ cwd st' = "/tmp"
      /\ trace st' = trace (initial_state "") ++ [(Parent, SysChdir "/tmp" (inl "/tmp"))]
      /\ (sys_getcwd demo_kernel st' = None ->
          displayPrompt demo_kernel st'
          = Ok tt (emit (Parent, SysWrite STDOUT_FILENO ("/tmp" ++ "$ ")) st')).
Proof.
  split; [reflexivity|]. split; [reflexivity|]. split; [reflexivity|].
  apply (cd_then_prompt demo_kernel (command_of ["cd"; "/tmp"; "more"])
           (initial_state "") "/tmp" "/tmp"); reflexivity.
Defined.

Lemma only_exit_ends_interpreter_witness :
  parseInput ("nosuchprogram < nofile" ++ NL) (initial_state "")
  = Ok (command_of ["nosuchprogram"; "<"; "nofile"]) (initial_state "")
  /\ (forall l, arguments (tokens ("nosuchprogram < nofile" ++ NL)) <> "exit" :: l)
  /\ exists st',
      executeCommand empty_kernel (command_of ["nosuchprogram"; "<"; "nofile"])
        (initial_state "") = Ok tt st'
      /\ stdin st' = stdin (initial_state "")
      /\ ((forall l, arguments (tokens ("nosuchprogram < nofile" ++ NL)) <> "cd" :: l) ->
          cwd st' = cwd (initial_state "")).
Proof.
  assert (parseInput ("nosuchprogram < nofile" ++ NL) (initial_state "")
          = Ok (command_of ["nosuchprogram"; "<"; "nofile"]) (initial_state "")) as H
    by (vm_compute; reflexivity).
  assert (forall l, arguments (tokens ("nosuchprogram < nofile" ++ NL)) <> "exit" :: l)
    as Hne by (intros l; vm_compute; discriminate).
  split; [exact H|]. split; [exact Hne|].
  exact (only_exit_ends_interpreter empty_kernel _ _ _ _ (initial_state "") H Hne).
Defined.

Lemma fork_failure_is_reported_witness :
  args (command_of ["ls"]) !! 0 = Some (Some (Ptr "ls"))
  /\ "ls" <> "exit" /\ "ls" <> "cd"
  /\ sys_fork busy_kernel (initial_state "") = inr 11%Z
  /\ exists st',
      executeCommand busy_kernel (command_of ["ls"]) (initial_state "") = Ok tt st'
      /\ trace st' = trace (initial_state "") ++
           [(Parent, SysFork (inr 11%Z));
            (Parent, SysWrite STDERR_FILENO
               ("fork: " ++ "Resource temporarily unavailable" ++ NL))]
      /\ cwd st' = cwd (initial_state "").
Proof.
  split; [reflexivity|]. split; [discriminate|]. split; [discriminate|].
  split; [reflexivity|].
  apply (fork_failure_is_reported busy_kernel (command_of ["ls"]) (initial_state "")
           "ls" 11%Z); [reflexivity|discriminate|discriminate|reflexivity].
Defined.

Lemma input_open_failure_witness :
  args (command_of ["cat"; "<"; "in"; ">"; "out"]) !! 0 = Some (Some (Ptr "cat"))
  /\ "cat" <> "exit" /\ "cat" <> "cd"
  /\ inputFile (command_of ["cat"; "<"; "in"; ">"; "out"]) = Ptr "in"
  /\ sys_fork empty_kernel (initial_state "") = inl 4242%positive
  /\ sys_open empty_kernel
       (emit (Parent, SysFork (inl 4242%positive)) (initial_state ""))
       "in" [O_RDONLY] None = inr 2%Z
  /\ exists st',
      executeCommand empty_kernel (command_of ["cat"; "<"; "in"; ">"; "out"])
        (initial_state "") = Ok tt st'
      /\ trace st' = trace (initial_state "") ++
           [(Parent, SysFork (inl 4242%positive));
            (Child, SysOpen "in" [O_RDONLY] None (inr 2%Z));
            (Child, SysWrite STDOUT_FILENO (error_line empty_kernel 2));
            (Child, SysExit 1);
            (Parent, SysWait)]
      /\ cwd st' = cwd (initial_state "") /\ errno st' = errno (initial_state "").
Proof.
  split; [reflexivity|]. split; [discriminate|]. split; [discriminate|].
  split; [reflexivity|]. split; [reflexivity|]. split; [reflexivity|].
  apply (input_open_failure empty_kernel (command_of ["cat"; "<"; "in"; ">"; "out"])
           (initial_state "") "cat" "in" 4242%positive 2%Z);
    [reflexivity|discriminate|discriminate|reflexivity|reflexivity|reflexivity].
Defined.

Lemma output_open_failure_witness :
  args (command_of ["ls"; ">"; "out"]) !! 0 = Some (Some (Ptr "ls"))
  /\ "ls" <> "exit" /\ "ls" <> "cd"
  /\ inputFile (command_of ["ls"; ">"; "out"]) = NULL
  /\ outputFile (command_of ["ls"; ">"; "out"]) = Ptr "out"
  /\ sys_fork empty_kernel (initial_state "") = inl 4242%positive
  /\ sys_open empty_kernel
       (emit (Parent, SysFork (inl 4242%positive)) (initial_state ""))
       "out" [O_WRONLY; O_CREAT; O_TRUNC] (Some 420%Z) = inr 2%Z
  /\ exists st',
      executeCommand empty_kernel (command_of ["ls"; ">"; "out"]) (initial_state "")
      = Ok tt st'
      /\ trace st' = trace (initial_state "") ++
           [(Parent, SysFork (inl 4242%positive));
            (Child, SysOpen "out" [O_WRONLY; O_CREAT; O_TRUNC] (Some 420%Z) (inr 2%Z));
            (Child, SysWrite STDOUT_FILENO (error_line empty_kernel 2));
            (Child, SysExit 1);
            (Parent, SysWait)]
      /\ cwd st' = cwd (initial_state "") /\ errno st' = errno (initial_state "").
Proof.
  split; [reflexivity|]. split; [discriminate|]. split; [discriminate|].
  split; [reflexivity|]. split; [reflexivity|]. split; [reflexivity|].
  split; [reflexivity|].
  apply (output_open_failure empty_kernel (command_of ["ls"; ">"; "out"])
           (initial_state "") "ls" "out" 4242%positive 2%Z);
    [reflexivity|discriminate|discriminate|reflexivity|reflexivity|reflexivity
    |reflexivity].
Defined.

Lemma plain_command_is_executed_witness :
  argv (command_of ["ls"; "-l"]) = ["ls"; "-l"]
  /\ terminated (command_of ["ls"; "-l"])
  /\ "ls" <> "exit" /\ "ls" <> "cd"
  /\ inputFile (command_of ["ls"; "-l"]) = NULL
  /\ outputFile (command_of ["ls"; "-l"]) = NULL
  /\ sys_fork empty_kernel (initial_state "") = inl 4242%positive
  /\ exists st',
      executeCommand empty_kernel (command_of ["ls"; "-l"]) (initial_state "")
      = Ok tt st'
      /\ trace st' = trace (initial_state "") ++
           [(Parent, SysFork (inl 4242%positive))] ++
           [(Child, SysExecvp "ls" ["ls"; "-l"] (Some 2%Z));
            (Child, SysWrite STDOUT_FILENO (error_line empty_kernel 2));
            (Child, SysExit 1)] ++ [(Parent, SysWait)]
      /\ cwd st' = cwd (initial_state "") /\ errno st' = errno (initial_state "").
Proof.
  split; [reflexivity|]. split; [reflexivity|].
  split; [discriminate|]. split; [discriminate|].
  split; [reflexivity|]. split; [reflexivity|]. split; [reflexivity|].
  apply (plain_command_is_executed empty_kernel (command_of ["ls"; "-l"])
           (initial_state "") "ls" ["-l"] 4242%positive);
    [reflexivity|reflexivity|discriminate|discriminate|reflexivity|reflexivity
    |reflexivity].
Defined.

Lemma redirected_command_is_executed_witness :
  argv (command_of ["sort"; "<"; "in"; ">"; "out"]) = ["sort"]
  /\ terminated (command_of ["sort"; "<"; "in"; ">"; "out"])
  /\ "sort" <> "exit" /\ "sort" <> "cd"
  /\ inputFile (command_of ["sort"; "<"; "in"; ">"; "out"]) = Ptr "in"
  /\ outputFile (command_of ["sort"; "<"; "in"; ">"; "out"]) = Ptr "out"
  /\ sys_fork demo_kernel (initial_state "") = inl 4242%positive
  /\ (forall s, sys_open demo_kernel s "in" [O_RDONLY] None = inl 3%Z)
  /\ (0 <= 3)%Z
  /\ (forall s, sys_open demo_kernel s "out" [O_WRONLY; O_CREAT; O_TRUNC] (Some 420%Z)
                = inl 3%Z)
  /\ (forall s, sys_execvp demo_kernel s "sort" ["sort"] = None)
  /\ exists st',
      executeCommand demo_kernel (command_of ["sort"; "<"; "in"; ">"; "out"])
        (initial_state "") = Ok tt st'
      /\ trace st' = trace (initial_state "") ++
           [(Parent, SysFork (inl 4242%positive));
            (Child, SysOpen "in" [O_RDONLY] None (inl 3%Z));
            (Child, SysDup2 3 STDIN_FILENO);
            (Child, SysClose 3);
            (Child, SysOpen "out" [O_WRONLY; O_CREAT; O_TRUNC] (Some 420%Z) (inl 3%Z));
            (Child, SysDup2 3 STDOUT_FILENO);
            (Child, SysClose 3);
            (Child, SysExecvp "sort" ["sort"] None)] ++ [] ++ [(Parent, SysWait)]
      /\ cwd st' = cwd (initial_state "") /\ errno st' = errno (initial_state "").
Proof.
  split; [reflexivity|]. split; [reflexivity|].
  split; [discriminate|]. split; [discriminate|].
  split; [reflexivity|]. split; [reflexivity|]. split; [reflexivity|].
  split; [reflexivity|]. split; [lia|]. split; [reflexivity|]. split; [reflexivity|].
  apply (redirected_command_is_executed demo_kernel
           (command_of ["sort"; "<"; "in"; ">"; "out"]) (initial_state "")
           "sort" [] "in" "out" 4242%positive 3%Z 3%Z None);
    [reflexivity|reflexivity|discriminate|discriminate|reflexivity|reflexivity
    |reflexivity|reflexivity|lia|reflexivity|lia|reflexivity].
Defined.

(** * The cells of the argument array *)

(** X16.  The parser stores outside [args] exactly on the lines with
    [MAX_ARGS] arguments or more; the first such store is at index
    [MAX_ARGS], and the parser crashes in no other way. *)
Theorem overflow_iff_too_many_arguments (line : string) (st : State) :
  (MAX_ARGS <= length (arguments (tokens line))
   <-> parseInput line st = Crashed (OutOfBounds MAX_ARGS))
  /\ (forall f, parseInput line st = Crashed f -> f = OutOfBounds MAX_ARGS).
Proof.
  pose proof (parseInput_spec line st) as Hs.
  destruct (decide (length (arguments (tokens line)) < MAX_ARGS)) as [Hlt|Hge].
  - destruct Hs as (o & Hs). split; [split; [lia|]|].
    + intros H. by rewrite H in Hs.
    + intros f H. by rewrite H in Hs.
  - split; [split; [done|lia]|].
    intros f H. rewrite H in Hs. by injection Hs.
Qed.

Lemma overflow_iff_too_many_arguments_witness :
  (MAX_ARGS <= length (arguments (tokens hundred_words))
   <-> parseInput hundred_words (initial_state "") = Crashed (OutOfBounds MAX_ARGS))
  /\ (forall f, parseInput hundred_words (initial_state "") = Crashed f ->
      f = OutOfBounds MAX_ARGS).
Proof. exact (overflow_iff_too_many_arguments hundred_words (initial_state "")). Defined.



(** * The parser on the memory of the process *)

(** ** Bytes and C strings *)

Lemma cs_cons c l :
  Memory.cstring_of (c :: l)
  = if Ascii.eqb c "000" then EmptyString else String c (Memory.cstring_of l).
Proof. reflexivity. Qed.

Lemma byte_0 c l : Memory.byte (c :: l) 0 = c.
Proof. reflexivity. Qed.

Lemma byte_drop buf p k : Memory.byte (drop p buf) k = Memory.byte buf (p + k).
Proof. unfold Memory.byte. by rewrite lookup_drop. Qed.

Lemma is_space_not_nul c : is_space c = true -> Ascii.eqb c "000" = false.
Proof. intros [-> | ->]%is_space_spec; reflexivity. Qed.

Lemma cs_nul l : Ascii.eqb (Memory.byte l 0) "000" = true -> Memory.cstring_of l = EmptyString.
Proof. destruct l as [|c l]; [done|]. rewrite byte_0, cs_cons. by intros ->. Qed.

Lemma string_app_empty s : (s ++ "")%string = s.
Proof.
  induction s as [|c s IH]; [done|].
  change (String c s ++ "")%string with (String c (s ++ "")). by rewrite IH.
Qed.

Lemma length_string_of_list_ascii w :
  String.length (string_of_list_ascii w) = length w.
Proof. induction w as [|c w IH]; [done|]. simpl. by rewrite IH. Qed.

(** Writing at or after the end of a string leaves the string as it is. *)
Lemma cs_insert l j x :
  Ascii.eqb (Memory.byte l j) "000" = false ->
  String.length (Memory.cstring_of l) <= j ->
  Memory.cstring_of (<[j := x]> l) = Memory.cstring_of l.
Proof.
  revert j. induction l as [|c l IH]; intros j Hb Hlen; [done|].
  rewrite cs_cons in Hlen. destruct j as [|j].
  - rewrite byte_0 in Hb. rewrite Hb in Hlen. simpl in Hlen. lia.
  - cbn [insert list_insert]. rewrite !cs_cons.
    destruct (Ascii.eqb c "000"); [done|].
    rewrite IH; [done|exact Hb|simpl in Hlen; lia].
Qed.

Lemma string_at_insert buf q k x :
  Ascii.eqb (Memory.byte buf k) "000" = false ->
  q + String.length (Memory.string_at buf q) <= k ->
  Memory.string_at (<[k := x]> buf) q = Memory.string_at buf q.
Proof.
  unfold Memory.string_at. intros Hb Hlen.
  rewrite drop_insert_ge by lia. apply cs_insert; [|lia].
  rewrite byte_drop. by replace (q + (k - q)) with k by lia.
Qed.

(** ** The two scans of strtok *)

Lemma strspn_split s :
  exists pre,
    s = pre ++ drop (Memory.strspn DELIM s) s
    /\ length pre = Memory.strspn DELIM s
    /\ Forall (fun c => is_space c = true) pre
    /\ (Ascii.eqb (Memory.byte s (Memory.strspn DELIM s)) "000" = false ->
        is_space (Memory.byte s (Memory.strspn DELIM s)) = false).
Proof.
  induction s as [|c s IH].
  - exists []. by repeat split.
  - cbn [Memory.strspn]. change (is_delim DELIM c) with (is_space c).
    unfold Memory.NUL.
    destruct (Ascii.eqb c "000") eqn:Hc; cbn [negb andb].
    { exists []. repeat split; [constructor|]. rewrite byte_0. congruence. }
    destruct (is_space c) eqn:Hs.
    + destruct IH as (pre & H1 & H2 & H3 & H4). exists (c :: pre).
      cbn [drop app length]. split; [by rewrite <- H1|]. split; [by rewrite H2|].
      split; [by constructor|]. exact H4.
    + exists []. repeat split; [constructor|]. by rewrite byte_0.
Qed.

Lemma cs_delims pre tl :
  Forall (fun c => is_space c = true) pre ->
  tokens (Memory.cstring_of (pre ++ tl)) = tokens (Memory.cstring_of tl)
  /\ String.length (Memory.cstring_of (pre ++ tl))
     = length pre + String.length (Memory.cstring_of tl).
Proof.
  induction 1 as [|c pre Hc _ IH]; [done|].
  cbn [app]. rewrite cs_cons, (is_space_not_nul c Hc), tokens_space by done.
  destruct IH as (IH1 & IH2). split; [done|]. simpl. by rewrite IH2.
Qed.

Lemma strcspn_split s :
  exists w,
    s = w ++ drop (Memory.strcspn DELIM s) s
    /\ length w = Memory.strcspn DELIM s
    /\ Forall (fun c => Ascii.eqb c "000" = false /\ is_space c = false) w
    /\ (Ascii.eqb (Memory.byte s (Memory.strcspn DELIM s)) "000" = false ->
        is_space (Memory.byte s (Memory.strcspn DELIM s)) = true).
Proof.
  induction s as [|c s IH].
  - exists []. by repeat split.
  - cbn [Memory.strcspn]. change (is_delim DELIM c) with (is_space c).
    unfold Memory.NUL.
    destruct (Ascii.eqb c "000") eqn:Hc; cbn [orb].
    { exists []. repeat split; [constructor|]. rewrite byte_0. congruence. }
    destruct (is_space c) eqn:Hs.
    + exists []. repeat split; [constructor|]. by rewrite byte_0.
    + destruct IH as (w & H1 & H2 & H3 & H4). exists (c :: w).
      cbn [drop app length]. split; [by rewrite <- H1|]. split; [by rewrite H2|].
      split; [by constructor|]. exact H4.
Qed.

Lemma cs_word w tl :
  Forall (fun c => Ascii.eqb c "000" = false /\ is_space c = false) w ->
  Memory.cstring_of (w ++ tl) = (string_of_list_ascii w ++ Memory.cstring_of tl)%string.
Proof.
  induction 1 as [|c w [Hc _] _ IH]; [done|].
  cbn [app]. by rewrite cs_cons, Hc, IH.
Qed.

Lemma is_word_bytes w :
  w <> [] ->
  Forall (fun c => Ascii.eqb c "000" = false /\ is_space c = false) w ->
  is_word (string_of_list_ascii w) = true.
Proof.
  intros Hne H. induction H as [|c w [_ Hc] Hw IH]; [done|].
  cbn [string_of_list_ascii]. rewrite is_word_cons, Hc. cbn [negb andb].
  destruct w as [|d w]; [done|]. rewrite IH by done. apply orb_true_r.
Qed.

(** The token at the head of the bytes [s], which start with a byte
    that is neither NUL nor a delimiter. *)
Lemma strcspn_token s :
  Ascii.eqb (Memory.byte s 0) "000" = false ->
  is_space (Memory.byte s 0) = false ->
  exists t,
    is_word t = true
    /\ String.length t = Memory.strcspn DELIM s
    /\ if Ascii.eqb (Memory.byte s (Memory.strcspn DELIM s)) "000"
       then Memory.cstring_of s = t
       else Memory.cstring_of (<[Memory.strcspn DELIM s := Memory.NUL]> s) = t
            /\ tokens (Memory.cstring_of s)
               = t :: tokens (Memory.cstring_of (drop (S (Memory.strcspn DELIM s)) s)).
Proof.
  intros Hnul Hsp.
  destruct (strcspn_split s) as (w & Hs & Hlen & Hw & Hstop).
  remember (Memory.strcspn DELIM s) as b eqn:Hb. clear Hb.
  assert (w <> []) as Hne.
  { intros ->. simpl in Hlen. subst b. rewrite Hsp in Hstop.
    by specialize (Hstop Hnul). }
  exists (string_of_list_ascii w).
  split; [by apply is_word_bytes|]. split; [by rewrite length_string_of_list_ascii|].
  assert (Memory.byte s b = Memory.byte (drop b s) 0) as Hbyte
    by (by rewrite byte_drop, Nat.add_0_r).
  rewrite Hbyte in *. remember (drop b s) as tl eqn:Htl.
  assert (drop (S b) s = drop 1 tl) as Hdrop.
  { rewrite Htl, drop_drop. f_equal. lia. }
  rewrite Hdrop. clear Htl Hdrop Hbyte Hnul Hsp. subst s b.
  destruct (Ascii.eqb (Memory.byte tl 0) "000") eqn:Hend.
  - by rewrite (cs_word _ _ Hw), (cs_nul _ Hend), string_app_empty.
  - specialize (Hstop eq_refl). destruct tl as [|d tl]; [done|].
    rewrite byte_0 in *. split.
    + rewrite insert_app_r_alt by lia. rewrite Nat.sub_diag.
      cbn [insert list_insert]. rewrite (cs_word _ _ Hw).
      by rewrite cs_cons, string_app_empty.
    + rewrite (cs_word _ _ Hw), cs_cons, Hend. cbn [drop].
      apply tokens_word_space; [by apply is_word_bytes|done].
Qed.

(** ** strtok on the buffer *)

Lemma string_at_0 buf : Memory.string_at buf 0 = Memory.cstring_of buf.
Proof. reflexivity. Qed.

(** What a call of [strtok] does: it returns the first of the tokens
    of the string it scans and leaves the save pointer before the
    others; the bytes it scanned now hold that token alone; the strings
    that ended before the scan are as they were. *)
Lemma strtok_memory_spec (s : Memory.pointer) (m : Memory.Mem) :
  let start := match s with Memory.At p => p | Memory.Null => Memory.save m end in
  let r := Memory.string_at (Memory.buffer m) start in
  exists token m',
    Memory.strtok s DELIM m = (token, m')
    /\ Memory.command m' = Memory.command m
    /\ length (Memory.buffer m') = length (Memory.buffer m)
    /\ start <= Memory.save m'
    /\ token_at m' token (tokens r)
    /\ tokens (Memory.string_at (Memory.buffer m') (Memory.save m')) = tail (tokens r)
    /\ tokens (Memory.string_at (Memory.buffer m') start) = take 1 (tokens r)
    /\ start + String.length (Memory.string_at (Memory.buffer m') start)
       <= Memory.save m'
    /\ forall q,
        q + String.length (Memory.string_at (Memory.buffer m) q) <= start ->
        Memory.string_at (Memory.buffer m') q = Memory.string_at (Memory.buffer m) q.
Proof.
  intros start r. subst r. unfold Memory.strtok. fold start.
  set (buf := Memory.buffer m) in *.
  destruct (strspn_split (drop start buf)) as (pre & Hsplit & Hpre & Hdel & Hhead).
  remember (Memory.strspn DELIM (drop start buf)) as a eqn:Ha. clear Ha.
  rewrite drop_drop in Hsplit. rewrite byte_drop in Hhead.
  destruct (cs_delims pre (drop (start + a) buf) Hdel) as (Htoks & Hlen).
  rewrite <- Hsplit in Htoks, Hlen. fold (Memory.string_at buf start) in Htoks, Hlen.
  fold (Memory.string_at buf (start + a)) in Htoks, Hlen.
  unfold Memory.NUL.
  destruct (Ascii.eqb (Memory.byte buf (start + a)) "000") eqn:Hend.
  - (* the end of the string *)
    assert (Memory.string_at buf (start + a) = EmptyString) as Hempty.
    { apply cs_nul. by rewrite byte_drop, Nat.add_0_r. }
    rewrite Hempty in Htoks, Hlen. simpl in Htoks, Hlen.
    eexists _, _. split; [reflexivity|]. cbn [Memory.set_save Memory.command
      Memory.buffer Memory.save]. fold buf. rewrite Hempty, Htoks.
    repeat split; try done; try lia.
  - (* a token *)
    specialize (Hhead eq_refl).
    destruct (strcspn_token (drop (start + a) buf)) as (t & Hword & Htlen & Htok).
    { by rewrite byte_drop, Nat.add_0_r. }
    { by rewrite byte_drop, Nat.add_0_r. }
    remember (Memory.strcspn DELIM (drop (start + a) buf)) as b eqn:Hb. clear Hb.
    rewrite byte_drop in Htok.
    destruct (Ascii.eqb (Memory.byte buf (start + a + b)) "000") eqn:Hstop.
    + (* the token runs to the end of the string *)
      fold (Memory.string_at buf (start + a)) in Htok.
      rewrite Htok in Htoks, Hlen. rewrite (tokens_word t Hword) in Htoks.
      assert (Memory.string_at buf (start + a + b) = EmptyString) as Hempty.
      { apply cs_nul. by rewrite byte_drop, Nat.add_0_r. }
      eexists _, _. split; [reflexivity|]. rewrite Htoks. unfold token_at.
      cbn [Memory.set_save Memory.command Memory.buffer Memory.save]. fold buf.
      rewrite Hempty.
      repeat split; try done; try lia.
      exists (start + a). repeat split; [done|lia].
    + (* the token ends at a delimiter, which becomes NUL *)
      destruct Htok as (Ht & Hrest).
      fold (Memory.string_at buf (start + a)) in Hrest. rewrite Hrest in Htoks.
      rewrite drop_drop in Htoks. clear Hrest.
      eexists _, _. split; [reflexivity|]. rewrite Htoks. unfold token_at.
      cbn [Memory.set_save Memory.set_buffer Memory.command Memory.buffer
           Memory.save]. fold buf.
      assert (Memory.string_at (<[start + a + b := "000"%char]> buf) (start + a) = t)
        as Hp.
      { unfold Memory.string_at. rewrite drop_insert_ge by lia.
        by replace (start + a + b - (start + a)) with b by lia. }
      assert (tokens (Memory.string_at (<[start + a + b := "000"%char]> buf) start) = [t]
              /\ String.length (Memory.string_at (<[start + a + b := "000"%char]> buf)
                                  start) = a + b)
        as (Hg & Hh).
      { unfold Memory.string_at. rewrite drop_insert_ge by lia.
        rewrite Hsplit at 1 2.
        replace (start + a + b - start) with (length pre + b) by lia.
        rewrite insert_app_r.
        destruct (cs_delims pre (<[b := "000"%char]> (drop (start + a) buf)) Hdel)
          as (-> & ->).
        unfold Memory.NUL in Ht. rewrite Ht.
        split; [by apply tokens_word|lia]. }
      repeat split.
      * by rewrite length_insert.
      * lia.
      * exists (start + a). repeat split; [done|lia].
      * unfold Memory.string_at. rewrite drop_insert_lt by lia.
        cbn [tail]. do 3 f_equal. lia.
      * by rewrite Hg.
      * rewrite Hh. lia.
      * intros q Hq. apply string_at_insert; [done|lia].
Qed.

(** ** The structure and the strings it points to *)

Lemma length_args_command_at m :
  length (Memory.command m) = Memory.SIZE ->
  length (args (Memory.command_at m)) = MAX_ARGS.
Proof.
  intros H. cbn [Memory.command_at args].
  rewrite length_fmap, length_take, H. unfold Memory.SIZE. lia.
Qed.

(** A step that leaves the structure and its strings alone leaves the
    command alone. *)
Lemma command_at_frozen m m' :
  Memory.command m' = Memory.command m ->
  frozen m ->
  (forall q,
     q + String.length (Memory.string_at (Memory.buffer m) q) <= Memory.save m ->
     Memory.string_at (Memory.buffer m') q = Memory.string_at (Memory.buffer m) q) ->
  Memory.command_at m' = Memory.command_at m.
Proof.
  intros Hc Hf Hs.
  assert (forall j c, Memory.command m !! j = Some c ->
            Memory.value (Memory.buffer m') c = Memory.value (Memory.buffer m) c) as Hv.
  { intros j [[|p]|] Hj; try done. cbn [Memory.value].
    by rewrite (Hs p (Hf j p Hj)). }
  unfold Memory.command_at. rewrite Hc. f_equal.
  - apply list_fmap_ext. intros j c (Hj & _)%lookup_take_Some. by apply (Hv j).
  - destruct (Memory.command m !! Memory.INPUT_FILE) as [c|] eqn:E; [|done].
    cbn [default from_option id]. by rewrite (Hv _ _ E).
  - destruct (Memory.command m !! Memory.OUTPUT_FILE) as [c|] eqn:E; [|done].
    cbn [default from_option id]. by rewrite (Hv _ _ E).
Qed.

Lemma frozen_step m m' :
  Memory.command m' = Memory.command m ->
  frozen m ->
  Memory.save m <= Memory.save m' ->
  (forall q,
     q + String.length (Memory.string_at (Memory.buffer m) q) <= Memory.save m ->
     Memory.string_at (Memory.buffer m') q = Memory.string_at (Memory.buffer m) q) ->
  frozen m'.
Proof.
  intros Hc Hf Hle Hs j p Hj. rewrite Hc in Hj.
  specialize (Hf j p Hj). rewrite (Hs p Hf). lia.
Qed.

Lemma frozen_store m j token toks :
  frozen m -> token_at m token toks ->
  frozen (Memory.set_command (<[j := Some token]> (Memory.command m)) m).
Proof.
  intros Hf Ht k p. cbn [Memory.set_command Memory.command Memory.buffer Memory.save].
  intros [(_ & [= ->] & _) | (_ & Hk)]%list_lookup_insert_Some; [|by apply (Hf k)].
  destruct toks as [|t toks]; [done|].
  destruct Ht as (p' & [= <-] & Hp & Hle). by rewrite Hp.
Qed.

(** The value of the pointer [strtok] returned. *)
Lemma value_token_at m token toks :
  token_at m token toks ->
  Memory.value (Memory.buffer m) (Some token) = Some (head_ptr toks).
Proof.
  destruct toks as [|t toks]; [by intros ->|].
  intros (p & -> & <- & _). reflexivity.
Qed.

Lemma command_at_store_args m i token :
  length (Memory.command m) = Memory.SIZE ->
  i < MAX_ARGS ->
  Memory.command_at (Memory.set_command (<[i := Some token]> (Memory.command m)) m)
  = set_args (<[i := Memory.value (Memory.buffer m) (Some token)]>
                (args (Memory.command_at m)))
             (Memory.command_at m).
Proof.
  intros Hlen Hi. unfold Memory.command_at, set_args.
  cbn [Memory.set_command Memory.command Memory.buffer args inputFile outputFile].
  rewrite take_insert_lt, list_fmap_insert by done.
  rewrite !list_lookup_insert_ne; [done| |];
    unfold Memory.OUTPUT_FILE, Memory.INPUT_FILE; lia.
Qed.

Lemma command_at_store_input m token :
  length (Memory.command m) = Memory.SIZE ->
  Memory.command_at (Memory.store_field Memory.INPUT_FILE token m)
  = set_inputFile (default NULL (Memory.value (Memory.buffer m) (Some token)))
      (Memory.command_at m).
Proof.
  intros Hlen. unfold Memory.command_at, Memory.store_field, set_inputFile.
  cbn [Memory.set_command Memory.command Memory.buffer args inputFile outputFile].
  rewrite take_insert_ge by done.
  rewrite list_lookup_insert_eq by (rewrite Hlen; unfold Memory.SIZE, Memory.INPUT_FILE; lia).
  by rewrite list_lookup_insert_ne by (unfold Memory.OUTPUT_FILE, Memory.INPUT_FILE; lia).
Qed.

Lemma command_at_store_output m token :
  length (Memory.command m) = Memory.SIZE ->
  Memory.command_at (Memory.store_field Memory.OUTPUT_FILE token m)
  = set_outputFile (default NULL (Memory.value (Memory.buffer m) (Some token)))
      (Memory.command_at m).
Proof.
  intros Hlen. unfold Memory.command_at, Memory.store_field, set_outputFile.
  cbn [Memory.set_command Memory.command Memory.buffer args inputFile outputFile].
  rewrite take_insert_ge by (unfold Memory.OUTPUT_FILE; lia).
  rewrite list_lookup_insert_eq by (rewrite Hlen; unfold Memory.SIZE, Memory.OUTPUT_FILE; lia).
  by rewrite list_lookup_insert_ne by (unfold Memory.OUTPUT_FILE, Memory.INPUT_FILE; lia).
Qed.

(** ** The loop of parseInput on memory *)

(** An operator and the token after it: two calls of [strtok] with a
    store to the field between them. *)
Lemma redirection_step field upd m rest :
  (forall m token,
     length (Memory.command m) = Memory.SIZE ->
     Memory.command_at (Memory.store_field field token m)
     = upd (default NULL (Memory.value (Memory.buffer m) (Some token)))
         (Memory.command_at m)) ->
  length (Memory.command m) = Memory.SIZE ->
  frozen m ->
  tokens (Memory.string_at (Memory.buffer m) (Memory.save m)) = rest ->
  exists token1 m1 token2 m2,
    Memory.strtok Memory.Null DELIM m = (token1, m1)
    /\ Memory.strtok Memory.Null DELIM (Memory.store_field field token1 m1)
       = (token2, m2)
    /\ Memory.command_at m2 = upd (head_ptr rest) (Memory.command_at m)
    /\ length (Memory.command m2) = Memory.SIZE
    /\ length (Memory.buffer m2) = length (Memory.buffer m)
    /\ frozen m2
    /\ token_at m2 token2 (tail rest)
    /\ tokens (Memory.string_at (Memory.buffer m2) (Memory.save m2)) = tail (tail rest)
    /\ Memory.save m <= Memory.save m2
    /\ forall q,
        q + String.length (Memory.string_at (Memory.buffer m) q) <= Memory.save m ->
        Memory.string_at (Memory.buffer m2) q = Memory.string_at (Memory.buffer m) q.
Proof.
  intros Hupd Hlen Hf Hrest.
  destruct (strtok_memory_spec Memory.Null m)
    as (token1 & m1 & Hs1 & Hc1 & Hb1 & Hle1 & Ht1 & Hr1 & _ & _ & Hq1).
  cbn zeta in *. rewrite Hrest in *.
  set (m1' := Memory.store_field field token1 m1).
  assert (frozen m1) as Hf1 by (by apply (frozen_step m)).
  assert (frozen m1') as Hf1' by (by apply (frozen_store m1 field token1 rest)).
  destruct (strtok_memory_spec Memory.Null m1')
    as (token2 & m2 & Hs2 & Hc2 & Hb2 & Hle2 & Ht2 & Hr2 & _ & _ & Hq2).
  cbn zeta in *.
  change (Memory.buffer m1') with (Memory.buffer m1) in *.
  change (Memory.save m1') with (Memory.save m1) in *.
  rewrite Hr1 in *.
  exists token1, m1, token2, m2.
  split; [done|]. split; [done|].
  assert (length (Memory.command m1) = Memory.SIZE) as Hlen1 by (by rewrite Hc1).
  split.
  { rewrite (command_at_frozen m1' m2 Hc2 Hf1' Hq2). unfold m1'.
    rewrite (Hupd m1 token1 Hlen1), (value_token_at _ _ _ Ht1). cbn [default from_option id].
    by rewrite (command_at_frozen m m1 Hc1 Hf Hq1). }
  split; [rewrite Hc2; unfold m1'; cbn; by rewrite length_insert|].
  split; [by rewrite Hb2|].
  split; [by apply (frozen_step m1')|].
  split; [done|]. split; [done|]. split; [lia|].
  intros q Hq. rewrite <- (Hq1 q Hq). apply Hq2. rewrite (Hq1 q Hq). lia.
Qed.

Lemma parse_loop_memory_step fuel p m i :
  Memory.parse_loop (S fuel) (Memory.At p) m i =
  if Memory.token_is m p "<" then
    let '(token, m) := Memory.strtok Memory.Null DELIM m in
    let m := Memory.store_field Memory.INPUT_FILE token m in
    let '(token, m) := Memory.strtok Memory.Null DELIM m in
    Memory.parse_loop fuel token m i
  else if Memory.token_is m p ">" then
    let '(token, m) := Memory.strtok Memory.Null DELIM m in
    let m := Memory.store_field Memory.OUTPUT_FILE token m in
    let '(token, m) := Memory.strtok Memory.Null DELIM m in
    Memory.parse_loop fuel token m i
  else
    match Memory.store_args i (Memory.At p) m with
    | inl f => inl f
    | inr m =>
        let '(token, m) := Memory.strtok Memory.Null DELIM m in
        Memory.parse_loop fuel token m (i + 1)
    end.
Proof. reflexivity. Qed.

(** While the arguments fit in [args], the loop on memory builds the
    command that the loop on the text builds. *)
Lemma parse_loop_memory_spec fuel : forall rem token m i,
  length (Memory.command m) = Memory.SIZE ->
  frozen m ->
  token_at m token rem ->
  tokens (Memory.string_at (Memory.buffer m) (Memory.save m)) = tail rem ->
  length rem <= fuel ->
  i + length (arguments rem) <= MAX_ARGS ->
  exists m',
    Memory.parse_loop fuel token m i = inr (m', i + length (arguments rem))
    /\ Memory.command_at m' = loop_result (Memory.command_at m) i rem
    /\ length (Memory.command m') = Memory.SIZE
    /\ length (Memory.buffer m') = length (Memory.buffer m)
    /\ forall q,
        q + String.length (Memory.string_at (Memory.buffer m) q) <= Memory.save m ->
        Memory.string_at (Memory.buffer m') q = Memory.string_at (Memory.buffer m) q.
Proof.
  induction fuel as [|fuel IH]; intros rem token m i Hlen Hf Ht Hrest Hfuel Hi.
  - destruct rem; [|simpl in Hfuel; lia]. simpl in Ht. subst token.
    exists m. cbn [Memory.parse_loop arguments length].
    rewrite Nat.add_0_r, loop_result_nil
      by (rewrite length_args_command_at by done; simpl in Hi; lia).
    done.
  - destruct rem as [|t rest].
    { simpl in Ht. subst token. exists m. cbn [Memory.parse_loop arguments length].
      rewrite Nat.add_0_r, loop_result_nil
      by (rewrite length_args_command_at by done; simpl in Hi; lia).
      done. }
    destruct Ht as (p & -> & Hp & Hple). cbn [tail] in Hrest. simpl in Hfuel.
    rewrite parse_loop_memory_step. unfold Memory.token_is. rewrite Hp.
    destruct (String.eqb t "<") eqn:E1; [|destruct (String.eqb t ">") eqn:E2].
    + apply String.eqb_eq in E1 as ->.
      destruct (redirection_step Memory.INPUT_FILE set_inputFile m rest
                  command_at_store_input Hlen Hf Hrest)
        as (token1 & m1 & token2 & m2 & -> & Hs2 & Hc & Hlen2 & Hb2 & Hf2 & Ht2
            & Hr2 & Hle & Hq).
      cbv beta iota zeta. rewrite Hs2.
      rewrite arguments_op in * by done.
      destruct (IH (tail rest) token2 m2 i Hlen2 Hf2 Ht2 Hr2) as (m' & -> & Hc' & Hl' & Hb' & Hq');
        [destruct rest; simpl in *; lia|done|].
      exists m'. split; [done|]. split; [by rewrite Hc', Hc, loop_result_lt|].
      split; [done|]. split; [by rewrite Hb'|].
      intros q Hqle. rewrite <- (Hq q Hqle). apply Hq'. rewrite (Hq q Hqle). lia.
    + apply String.eqb_eq in E2 as ->.
      destruct (redirection_step Memory.OUTPUT_FILE set_outputFile m rest
                  command_at_store_output Hlen Hf Hrest)
        as (token1 & m1 & token2 & m2 & -> & Hs2 & Hc & Hlen2 & Hb2 & Hf2 & Ht2
            & Hr2 & Hle & Hq).
      cbv beta iota zeta. rewrite Hs2.
      rewrite arguments_op in * by done.
      destruct (IH (tail rest) token2 m2 i Hlen2 Hf2 Ht2 Hr2) as (m' & -> & Hc' & Hl' & Hb' & Hq');
        [destruct rest; simpl in *; lia|done|].
      exists m'. split; [done|]. split; [by rewrite Hc', Hc, loop_result_gt|].
      split; [done|]. split; [by rewrite Hb'|].
      intros q Hqle. rewrite <- (Hq q Hqle). apply Hq'. rewrite (Hq q Hqle). lia.
    + assert (is_op t = false) as Hop by (unfold is_op; by rewrite E1, E2).
      rewrite arguments_arg in * by done. cbn [length] in *.
      unfold Memory.store_args. rewrite decide_True by (rewrite Hlen; unfold Memory.SIZE; lia).
      set (m0 := Memory.set_command (<[i := Some (Memory.At p)]> (Memory.command m)) m).
      assert (token_at m (Memory.At p) (t :: rest)) as Htok by (by exists p).
      assert (frozen m0) as Hf0 by (by apply (frozen_store m i _ (t :: rest))).
      assert (length (Memory.command m0) = Memory.SIZE) as Hlen0
        by (unfold m0; cbn; by rewrite length_insert).
      destruct (strtok_memory_spec Memory.Null m0)
        as (token1 & m1 & Hs1 & Hc1 & Hb1 & Hle1 & Ht1 & Hr1 & _ & _ & Hq1).
      cbn zeta in *.
      change (Memory.buffer m0) with (Memory.buffer m) in *.
      change (Memory.save m0) with (Memory.save m) in *.
      rewrite Hrest in *. rewrite Hs1.
      destruct (IH rest token1 m1 (i + 1)) as (m' & -> & Hc' & Hl' & Hb' & Hq');
        [by rewrite Hc1|by apply (frozen_step m0)|done|done|lia|lia|].
      exists m'. split; [do 2 f_equal; lia|].
      split.
      { rewrite Hc', (command_at_frozen m0 m1 Hc1 Hf0 Hq1). unfold m0.
        rewrite command_at_store_args by (done || lia).
        rewrite (value_token_at _ _ _ Htok).
        rewrite loop_result_arg; [done|done|].
        rewrite length_args_command_at by done. lia. }
      split; [done|]. split; [by rewrite Hb'|].
      intros q Hqle. rewrite <- (Hq1 q Hqle). apply Hq'. rewrite (Hq1 q Hqle). lia.
Qed.

(** ** What parseInput computes on memory *)

Lemma tokens_cstring_of_length input :
  length (tokens (Memory.cstring_of input)) <= length input.
Proof.
  etrans; [apply tokens_length|]. etrans; [apply cstring_length|].
  by rewrite length_string_of_list_ascii.
Qed.

(** The refinement.  When the string in the buffer has fewer than
    [MAX_ARGS] arguments, [parseInput] on memory returns, and its
    structure holds the command of the tokens of the string: the
    command [parseInput] returns on the text.  The buffer has changed:
    the string at its start is cut after the first token. *)
Lemma parseInput_memory_spec (input : list ascii) :
  length (arguments (tokens (Memory.cstring_of input))) < MAX_ARGS ->
  exists m,
    Memory.parseInput input = inr m
    /\ Memory.command_at m = command_of (tokens (Memory.cstring_of input))
    /\ length (Memory.buffer m) = length input
    /\ tokens (Memory.cstring_of (Memory.buffer m))
       = take 1 (tokens (Memory.cstring_of input)).
Proof.
  intros Hlt. unfold Memory.parseInput.
  set (m0 := Memory.store_field Memory.OUTPUT_FILE Memory.Null
               (Memory.store_field Memory.INPUT_FILE Memory.Null
                  {| Memory.buffer := input; Memory.save := 0;
                     Memory.command := replicate Memory.SIZE None |})).
  assert (length (Memory.command m0) = Memory.SIZE) as Hlen0 by reflexivity.
  assert (frozen m0) as Hf0.
  { intros j p. unfold m0, Memory.store_field.
    cbn [Memory.set_command Memory.command].
    intros [(_ & [=] & _) | (_ & [(_ & [=] & _) | (_ & H)]%list_lookup_insert_Some)]
      %list_lookup_insert_Some.
    by apply lookup_replicate in H as ([=] & _). }
  assert (Memory.command_at m0
          = {| args := replicate MAX_ARGS None; inputFile := NULL; outputFile := NULL |})
    as Hc0 by reflexivity.
  destruct (strtok_memory_spec (Memory.At 0) m0)
    as (token & m1 & -> & Hc1 & Hb1 & _ & Ht1 & Hr1 & Hg1 & Hh1 & Hq1).
  cbn zeta in *. change (Memory.buffer m0) with input in *.
  change (Memory.string_at input 0) with (Memory.cstring_of input) in *.
  assert (length (Memory.command m1) = Memory.SIZE) as Hlen1 by (by rewrite Hc1).
  assert (frozen m1) as Hf1.
  { apply (frozen_step m0); [done|done|change (Memory.save m0) with 0; lia|done]. }
  destruct (parse_loop_memory_spec (length input) (tokens (Memory.cstring_of input))
              token m1 0 Hlen1 Hf1 Ht1 Hr1 (tokens_cstring_of_length input))
    as (m2 & -> & Hc2 & Hlen2 & Hb2 & Hq2); [lia|].
  set (n := length (arguments (tokens (Memory.cstring_of input)))) in *.
  unfold Memory.store_args.
  rewrite decide_True by (rewrite Hlen2; unfold Memory.SIZE; lia).
  eexists. split; [reflexivity|]. split; [|split].
  - rewrite command_at_store_args by (done || lia).
    rewrite Hc2, (command_at_frozen m0 m1 Hc1 Hf0 Hq1), Hc0.
    unfold set_args, command_of. cbn [args inputFile outputFile loop_result Memory.value].
    f_equal. apply (args_of_insert _ Hlt).
  - cbn [Memory.set_command Memory.buffer]. by rewrite Hb2.
  - cbn [Memory.set_command Memory.buffer].
    rewrite <- (string_at_0 (Memory.buffer m2)), (Hq2 0) by lia. done.
Qed.

(** [parseInput] on the text of the line is [parseInput] on the bytes
    of the buffer, read through the pointers it returns. *)
Lemma parseInput_refines (input : list ascii) (st st' : State) (command : ShellCommand) :
  parseInput (Memory.cstring_of input) st = Ok command st' ->
  exists m, Memory.parseInput input = inr m /\ Memory.command_at m = command.
Proof.
  intros (-> & Hlt & _)%parseInput_Ok.
  destruct (parseInput_memory_spec input Hlt) as (m & Hm & Hc & _). eauto.
Qed.

(** The parser on memory returns unless it stores outside the
    structure: the fuel of its loop never runs out. *)
Lemma parse_loop_memory_total fuel : forall rem token m i,
  length (Memory.command m) = Memory.SIZE ->
  i <= Memory.SIZE ->
  token_at m token rem ->
  tokens (Memory.string_at (Memory.buffer m) (Memory.save m)) = tail rem ->
  length rem <= fuel ->
  match Memory.parse_loop fuel token m i with
  | inl f => f = OutOfBounds Memory.SIZE
  | inr (m', i') => i' <= Memory.SIZE /\ length (Memory.command m') = Memory.SIZE
  end.
Proof.
  induction fuel as [|fuel IH]; intros rem token m i Hlen Hi Ht Hrest Hfuel.
  - destruct rem; [|simpl in Hfuel; lia]. simpl in Ht. by subst token.
  - destruct rem as [|t rest]; [simpl in Ht; by subst token|].
    destruct Ht as (p & -> & Hp & Hple). cbn [tail] in Hrest. simpl in Hfuel.
    rewrite parse_loop_memory_step.
    assert (forall field,
              match
                (let '(token, m1) := Memory.strtok Memory.Null DELIM m in
                 let m1 := Memory.store_field field token m1 in
                 let '(token, m2) := Memory.strtok Memory.Null DELIM m1 in
                 Memory.parse_loop fuel token m2 i)
              with
              | inl f => f = OutOfBounds Memory.SIZE
              | inr (m', i') =>
                  i' <= Memory.SIZE /\ length (Memory.command m') = Memory.SIZE
              end) as Hredirect.
    { intros field.
      destruct (strtok_memory_spec Memory.Null m)
        as (token1 & m1 & -> & Hc1 & _ & _ & _ & Hr1 & _).
      cbn zeta in *. rewrite Hrest in Hr1.
      destruct (strtok_memory_spec Memory.Null (Memory.store_field field token1 m1))
        as (token2 & m2 & Hs2 & Hc2 & _ & _ & Ht2 & Hr2 & _).
      cbn zeta in *. rewrite Hs2.
      change (Memory.buffer (Memory.store_field field token1 m1))
        with (Memory.buffer m1) in *.
      change (Memory.save (Memory.store_field field token1 m1))
        with (Memory.save m1) in *.
      rewrite Hr1 in *.
      apply (IH (tail rest)); [|done|done|done|destruct rest; simpl in *; lia].
      rewrite Hc2. cbn. by rewrite length_insert, Hc1. }
    destruct (Memory.token_is m p "<"); [apply Hredirect|].
    destruct (Memory.token_is m p ">"); [apply Hredirect|].
    unfold Memory.store_args. rewrite Hlen.
    destruct (decide (i < Memory.SIZE)) as [Hlt|Hge]; [|f_equal; lia].
    set (m0 := Memory.set_command (<[i := Some (Memory.At p)]> (Memory.command m)) m).
    destruct (strtok_memory_spec Memory.Null m0)
      as (token1 & m1 & -> & Hc1 & _ & _ & Ht1 & Hr1 & _).
    cbn zeta in *.
    change (Memory.buffer m0) with (Memory.buffer m) in *.
    change (Memory.save m0) with (Memory.save m) in *.
    rewrite Hrest in *.
    apply (IH rest); [|lia|done|done|lia].
    rewrite Hc1. unfold m0. cbn. by rewrite length_insert.
Qed.

Lemma parseInput_memory_total (input : list ascii) :
  match Memory.parseInput input with
  | inl f => f = OutOfBounds Memory.SIZE
  | inr m => length (Memory.command m) = Memory.SIZE
  end.
Proof.
  unfold Memory.parseInput.
  set (m0 := Memory.store_field Memory.OUTPUT_FILE Memory.Null
               (Memory.store_field Memory.INPUT_FILE Memory.Null
                  {| Memory.buffer := input; Memory.save := 0;
                     Memory.command := replicate Memory.SIZE None |})).
  destruct (strtok_memory_spec (Memory.At 0) m0)
    as (token & m1 & -> & Hc1 & _ & _ & Ht1 & Hr1 & _).
  cbn zeta in *. change (Memory.buffer m0) with input in *.
  change (Memory.string_at input 0) with (Memory.cstring_of input) in *.
  pose proof (parse_loop_memory_total (length input) (tokens (Memory.cstring_of input))
                token m1 0) as H.
  destruct (Memory.parse_loop (length input) token m1 0) as [f|[m2 i]].
  - apply H; [by rewrite Hc1|lia|done|done|apply tokens_cstring_of_length].
  - destruct H as (Hi & Hlen2);
      [by rewrite Hc1|lia|done|done|apply tokens_cstring_of_length|].
    unfold Memory.store_args. rewrite Hlen2.
    destruct (decide (i < Memory.SIZE)); [|f_equal; lia].
    cbn. by rewrite length_insert.
Qed.

(** * The properties of the parser on memory *)

(** The line of [MAX_ARGS] words on memory: the null that ends the
    arguments is stored in the cell of [inputFile], which holds null
    already, and the command is the one the line describes. *)
Example hundred_words_on_memory :
  exists m,
    Memory.parseInput (list_ascii_of_string hundred_words) = inr m
    /\ args (Memory.command_at m) = replicate MAX_ARGS (Some (Ptr "a"))
    /\ inputFile (Memory.command_at m) = NULL
    /\ outputFile (Memory.command_at m) = NULL.
Proof.
  eexists. split; [vm_compute; reflexivity|]. repeat split; vm_compute; reflexivity.
Qed.

(** With a redirection of the input on that line, the null that ends
    the arguments takes the place of the file. *)
Example hundred_words_redirection_lost :
  exists m,
    Memory.parseInput
      (list_ascii_of_string (repeat_string MAX_ARGS "a " ++ "< f" ++ NL)) = inr m
    /\ paths "<" (tokens (repeat_string MAX_ARGS "a " ++ "< f" ++ NL)) = [Ptr "f"]
    /\ inputFile (Memory.command_at m) = NULL.
Proof.
  eexists. split; [vm_compute; reflexivity|]. split; vm_compute; reflexivity.
Qed.

(** C1.  The line of [MAX_ARGS + 1] one-letter words has no operator,
    and the parser stores its last word at [args[MAX_ARGS]], outside
    the array.  C leaves that store undefined; on the memory of the
    process it goes to the cell of [inputFile].  The command returned
    is not the command of the line: it has the last word as the file of
    its input redirection, and its array holds [MAX_ARGS] arguments,
    not [MAX_ARGS + 1], with no null after them. *)
Theorem parseInput_one_word_too_many :
  arguments (tokens hundred_one_words) = replicate (MAX_ARGS + 1) "a"
  /\ redirections (tokens hundred_one_words) = []
  /\ (forall st, parseInput hundred_one_words st = Crashed (OutOfBounds MAX_ARGS))
  /\ exists m,
      Memory.parseInput (list_ascii_of_string hundred_one_words) = inr m
      /\ args (Memory.command_at m) = replicate MAX_ARGS (Some (Ptr "a"))
      /\ inputFile (Memory.command_at m) = Ptr "a"
      /\ outputFile (Memory.command_at m) = NULL.
Proof.
  split; [vm_compute; reflexivity|]. split; [vm_compute; reflexivity|].
  split; [intros st; apply parseInput_overflow; vm_compute; lia|].
  eexists. split; [vm_compute; reflexivity|]. repeat split; vm_compute; reflexivity.
Qed.

(** C8 as stated fails: after the line [ls -l] has been parsed, the
    buffer holds the string [ls], and parsing the buffer again gives a
    command with one argument, not two. *)
Lemma second_parse_differs :
  exists m1 m2,
    Memory.parseInput (list_ascii_of_string ("ls -l" ++ NL)) = inr m1
    /\ Memory.parseInput (Memory.buffer m1) = inr m2
    /\ argv (Memory.command_at m1) = ["ls"; "-l"]
    /\ Memory.cstring_of (Memory.buffer m1) = "ls"
    /\ argv (Memory.command_at m2) = ["ls"].
Proof.
  eexists _, _. split; [vm_compute; reflexivity|].
  split; [vm_compute; reflexivity|]. repeat split; vm_compute; reflexivity.
Qed.

(** C8, as the code has it.  The command depends on the string in the
    buffer only: every buffer that holds the same string gives the same
    command, the command of its tokens.  But the parse writes into the
    buffer, and a second parse of the same buffer gives the command of
    the first token alone: the same command when the line has one token
    at most, another one when it has two arguments or more. *)
Theorem second_parse_sees_first_token (input : list ascii) (m1 : Memory.Mem) :
  length (arguments (tokens (Memory.cstring_of input))) < MAX_ARGS ->
  Memory.parseInput input = inr m1 ->
  Memory.command_at m1 = command_of (tokens (Memory.cstring_of input))
  /\ (forall input',
        Memory.cstring_of input' = Memory.cstring_of input ->
        exists m1',
          Memory.parseInput input' = inr m1'
          /\ Memory.command_at m1' = Memory.command_at m1)
  /\ exists m2,
      Memory.parseInput (Memory.buffer m1) = inr m2
      /\ Memory.command_at m2 = command_of (take 1 (tokens (Memory.cstring_of input)))
      /\ (length (tokens (Memory.cstring_of input)) <= 1 ->
          Memory.command_at m2 = Memory.command_at m1)
      /\ (2 <= length (arguments (tokens (Memory.cstring_of input))) ->
          Memory.command_at m2 <> Memory.command_at m1).
Proof.
  intros Hlt H1.
  destruct (parseInput_memory_spec input Hlt) as (m & Hm & Hc & _ & Hbuf).
  rewrite H1 in Hm. injection Hm as <-.
  split; [done|]. split.
  { intros input' Heq. rewrite <- Heq in Hlt.
    destruct (parseInput_memory_spec input' Hlt) as (m1' & Hm' & Hc' & _).
    exists m1'. split; [done|]. by rewrite Hc', Hc, Heq. }
  set (toks := tokens (Memory.cstring_of input)) in *.
  assert (length (arguments (take 1 toks)) <= 1) as Hone.
  { destruct toks as [|t toks]; [simpl; lia|].
    rewrite firstn_cons, take_0. simpl. destruct (is_op t); simpl; lia. }
  destruct (parseInput_memory_spec (Memory.buffer m1)) as (m2 & Hm2 & Hc2 & _).
  { rewrite Hbuf. unfold MAX_ARGS. lia. }
  exists m2. split; [done|]. rewrite Hc2, Hbuf, Hc. split; [done|]. split.
  - intros Hle. by rewrite take_ge by (simpl; lia).
  - intros Htwo Heq. apply (f_equal argv) in Heq.
    rewrite !argv_command_of in Heq. rewrite Heq in Hone. lia.
Qed.

Lemma second_parse_sees_first_token_witness :
  let input := list_ascii_of_string ("ls -l > out" ++ NL) in
  length (arguments (tokens (Memory.cstring_of input))) < MAX_ARGS
  /\ match Memory.parseInput input with
     | inl _ => False
     | inr m1 =>
         Memory.command_at m1 = command_of (tokens (Memory.cstring_of input))
         /\ (forall input',
               Memory.cstring_of input' = Memory.cstring_of input ->
               exists m1',
                 Memory.parseInput input' = inr m1'
                 /\ Memory.command_at m1' = Memory.command_at m1)
         /\ exists m2,
             Memory.parseInput (Memory.buffer m1) = inr m2
             /\ Memory.command_at m2
                = command_of (take 1 (tokens (Memory.cstring_of input)))
             /\ (length (tokens (Memory.cstring_of input)) <= 1 ->
                 Memory.command_at m2 = Memory.command_at m1)
             /\ (2 <= length (arguments (tokens (Memory.cstring_of input))) ->
                 Memory.command_at m2 <> Memory.command_at m1)
     end.
Proof.
  intros input.
  assert (length (arguments (tokens (Memory.cstring_of input))) < MAX_ARGS) as Hlt
    by (vm_compute; lia).
  split; [exact Hlt|].
  destruct (Memory.parseInput input) as [f|m1] eqn:H1;
    [vm_compute in H1; discriminate|].
  exact (second_parse_sees_first_token input m1 Hlt H1).
Defined.
